(** * Meshgram: a Meshtastic <-> Telegram bridge (main.py)

    A shallow embedding of the bridge's relay logic: the identifier
    conversions, the whitelist dictionaries, the mesh-to-chat callback
    [on_meshtastic_receive] and the chat-to-mesh handler [telegram_to_mesh],
    with the properties of its specification stated and proved on them. *)

From Stdlib.Strings Require Import Byte.
From Stdlib Require Import String Ascii ZArith NArith List Bool Lia.
Import ListNotations.

Local Open Scope list_scope.
Local Open Scope Z_scope.

(* ================================================================== *)
(** * Python values used by the bridge *)
(* ================================================================== *)

(** A Python [str] is a sequence of Unicode code points. *)
Definition str := list N.

(** A literal of the source, written as a Rocq string. *)
Definition lit (s : string) : str := map N_of_ascii (list_ascii_of_string s).

(** A Python [bytes] object. *)
Definition bytes := list byte.

Definition blit (s : string) : bytes := list_byte_of_string s.

Fixpoint str_eqb (a b : str) : bool :=
  match a, b with
  | [], [] => true
  | x :: a', y :: b' => (x =? y)%N && str_eqb a' b'
  | _, _ => false
  end.

(** The exceptions the embedded code can meet. [TransportError] stands for
    an error of an outbound transport; [CancelledError] is the one among
    them that is a [BaseException] without being an [Exception]. *)
Inductive exn : Type :=
| ValueError
| AttributeError
| KeyError
| RuntimeError
| TransportError
| CancelledError.

(** [isinstance(e, Exception)] *)
Definition is_exception (e : exn) : bool :=
  match e with
  | CancelledError => false
  | _ => true
  end.

(** Result of evaluating an expression that may raise. *)
Inductive outcome (A : Type) : Type :=
| Returned (a : A)
| Raised (e : exn).
Arguments Returned {A} a.
Arguments Raised {A} e.

Definition obind {A B} (m : outcome A) (f : A -> outcome B) : outcome B :=
  match m with
  | Returned a => f a
  | Raised e => Raised e
  end.

(* ------------------------------------------------------------------ *)
(** ** String methods *)

(** [str.isspace] on one code point: the characters [str.strip()]
    removes. *)
Definition isspace (c : N) : bool :=
  ((9 <=? c) && (c <=? 13) || (28 <=? c) && (c <=? 32) ||
   (c =? 133) || (c =? 160) || (c =? 5760) ||
   (8192 <=? c) && (c <=? 8202) || (c =? 8232) || (c =? 8233) ||
   (c =? 8239) || (c =? 8287) || (c =? 12288))%N.

Fixpoint lstrip (s : str) : str :=
  match s with
  | [] => []
  | c :: r => if isspace c then lstrip r else s
  end.

Definition rstrip (s : str) : str := rev (lstrip (rev s)).

(** [s.strip()] *)
Definition strip (s : str) : str := rstrip (lstrip s).

(** [s[n:]] for a non-negative [n]; past the end it is the empty string. *)
Definition slice_from (n : nat) (s : str) : str := skipn n s.

(** [s.split(sep)] for a one-character separator: never an empty list. *)
Fixpoint split (sep : N) (s : str) : list str :=
  match s with
  | [] => [[]]
  | c :: r =>
      if (c =? sep)%N then [] :: split sep r
      else match split sep r with
           | p :: ps => (c :: p) :: ps
           | [] => [[c]]
           end
  end.

(** [s.startswith(p)] *)
Fixpoint startswith (s p : str) {struct p} : bool :=
  match p, s with
  | [], _ => true
  | x :: p', y :: s' => (x =? y)%N && startswith s' p'
  | _ :: _, [] => false
  end.

(** [str.lower] on one code point, for the letters A-Z. The other code
    points CPython lowers stay as they are here; none of them lowers to
    [a] or [l], so the comparison [s.lower() == "all"] of the source is
    decided the same way. *)
Definition lower_char (c : N) : N :=
  if ((65 <=? c) && (c <=? 90))%N then (c + 32)%N else c.

Definition lower (s : str) : str := map lower_char s.

(* ------------------------------------------------------------------ *)
(** ** Dictionaries

    A Python [dict] keeps its keys in insertion order; assigning to a key
    that is present overwrites the value in place. *)

Definition dict (V : Type) := list (str * V).

Fixpoint dict_get {V} (d : dict V) (k : str) : option V :=
  match d with
  | [] => None
  | (k', v) :: r => if str_eqb k' k then Some v else dict_get r k
  end.

(** [k in d] *)
Definition dict_contains {V} (d : dict V) (k : str) : bool :=
  match dict_get d k with Some _ => true | None => false end.

(** [d[k] = v] *)
Fixpoint dict_set {V} (d : dict V) (k : str) (v : V) : dict V :=
  match d with
  | [] => [(k, v)]
  | (k', v') :: r =>
      if str_eqb k' k then (k', v) :: r else (k', v') :: dict_set r k v
  end.

(** A dict display [{k1: v1, k2: v2, ...}] and a dict comprehension both
    insert their items from left to right. *)
Definition dict_of_items {V} (items : list (str * V)) : dict V :=
  fold_left (fun d kv => dict_set d (fst kv) (snd kv)) items [].

Definition dict_items {V} (d : dict V) : list (str * V) := d.
Definition dict_keys {V} (d : dict V) : list str := map fst d.
Definition dict_values {V} (d : dict V) : list V := map snd d.

(* ------------------------------------------------------------------ *)
(** ** Integers and their text forms *)

(** The lowercase digit for [d], [0 <= d < 36]. *)
Definition digit_char (d : Z) : N :=
  if d <? 10 then Z.to_N (48 + d) else Z.to_N (87 + d).

(** Value of a digit character, in either case. *)
Definition digit_value (c : N) : option Z :=
  if ((48 <=? c) && (c <=? 57))%N then Some (Z.of_N c - 48)
  else if ((97 <=? c) && (c <=? 122))%N then Some (Z.of_N c - 87)
  else if ((65 <=? c) && (c <=? 90))%N then Some (Z.of_N c - 55)
  else None.

Fixpoint to_digits (fuel : nat) (base n : Z) (acc : str) : str :=
  match fuel with
  | O => acc
  | S f =>
      let acc' := digit_char (n mod base) :: acc in
      if n / base =? 0 then acc' else to_digits f base (n / base) acc'
  end.

(** The digits of [n >= 0] in [base], most significant first, no padding. *)
Definition digits (base n : Z) : str :=
  to_digits (S (Z.to_nat (Z.log2 n))) base n [].

(** [str(n)] for an int. *)
Definition str_of_int (n : Z) : str :=
  if n <? 0 then 45%N :: digits 10 (- n) else digits 10 n.

(** [format(n, "08x")]: lowercase hexadecimal, zero-padded after the sign to
    a total width of 8; wider numbers are not truncated. *)
Definition format_08x (n : Z) : str :=
  let sign := if n <? 0 then [45%N] else [] in
  let ds := digits 16 (Z.abs n) in
  sign ++ repeat 48%N (8 - length sign - length ds) ++ ds.

(** The whitespace [int()] skips around a number: that of [str.isspace]
    without the separators U+001C to U+001F. *)
Definition int_space (c : N) : bool :=
  isspace c && negb ((28 <=? c) && (c <=? 31))%N.

Fixpoint skip_space (s : str) : str :=
  match s with
  | [] => []
  | c :: r => if int_space c then skip_space r else s
  end.

(** The run of digits [int()] reads: digits below [base], single underscores
    allowed between them. Gives the value, the number of digits and the
    rest of the text. *)
Fixpoint digit_run (base : Z) (s : str) (prev_us : bool) (acc : Z) (count : nat)
  : option (Z * nat * str) :=
  match s with
  | [] => if prev_us then None else Some (acc, count, [])
  | c :: r =>
      if (c =? 95)%N then
        if prev_us then None else digit_run base r true acc count
      else
        match digit_value c with
        | Some d =>
            if d <? base then digit_run base r false (acc * base + d) (S count)
            else if prev_us then None else Some (acc, count, s)
        | None => if prev_us then None else Some (acc, count, s)
        end
  end.

(** The decimal digits outside ASCII: each entry is the code point of a
    digit zero, which the digits one to nine follow (Unicode 14.0, the
    table of CPython 3.11). *)
Definition decimal_zeros : list N :=
  [1632; 1776; 1984; 2406; 2534; 2662; 2790; 2918; 3046; 3174; 3302; 3430;
   3558; 3664; 3792; 3872; 4160; 4240; 6112; 6160; 6470; 6608; 6784; 6800;
   6992; 7088; 7232; 7248; 42528; 43216; 43264; 43472; 43504; 43600; 44016;
   65296; 66720; 68912; 69734; 69872; 69942; 70096; 70384; 70736; 70864;
   71248; 71360; 71472; 71904; 72016; 72784; 73040; 73120; 92768; 92864;
   93008; 120782; 120792; 120802; 120812; 120822; 123200; 123632; 125264;
   130032]%N.

(** The value of a decimal digit of any script. *)
Definition unicode_decimal (c : N) : option N :=
  match find (fun z => (z <=? c) && (c <? z + 10))%N decimal_zeros with
  | Some z => Some (c - z)%N
  | None => None
  end.

(** What [int()] makes of a character before it reads the text: ASCII is
    kept, other whitespace becomes a space, other decimal digits become
    the ASCII digit of their value, anything else a character that no
    number holds. *)
Definition to_ascii (c : N) : N :=
  if (c <? 127)%N then c
  else if isspace c then 32%N
  else match unicode_decimal c with
       | Some d => (48 + d)%N
       | None => 63%N
       end.

(** [int(s, base)] on a text made ASCII: surrounding whitespace, one sign,
    for base 16 an optional [0x] prefix, then the digit run. Anything else
    is a [ValueError]. *)
Definition int_of_ascii (base : Z) (s : str) : outcome Z :=
  let s1 := skip_space s in
  let '(neg, s2) :=
    match s1 with
    | c :: r => if (c =? 43)%N then (false, r)
                else if (c =? 45)%N then (true, r) else (false, s1)
    | [] => (false, s1)
    end in
  let s3 :=
    match s2 with
    | c0 :: c1 :: r =>
        if (base =? 16) && (c0 =? 48)%N && ((c1 =? 120) || (c1 =? 88))%N
        then match r with
             | u :: r' => if (u =? 95)%N then r' else r
             | [] => r
             end
        else s2
    | _ => s2
    end in
  match s3 with
  | [] => Raised ValueError
  | c :: _ =>
      if (c =? 95)%N then Raised ValueError
      else match digit_run base s3 false 0 0 with
           | Some (v, S _, rest) =>
               if forallb int_space rest
               then Returned (if neg then - v else v)
               else Raised ValueError
           | _ => Raised ValueError
           end
  end.

(** [int(s, base)] for [base] 10 or 16. Numbers of any length are read:
    the limit an interpreter may put on the number of decimal digits (4300
    by default, never below 640) is not part of this model. *)
Definition int_of_str (base : Z) (s : str) : outcome Z :=
  int_of_ascii base (map to_ascii s).

(* ------------------------------------------------------------------ *)
(** ** Decoding bytes

    [b.decode(errors="ignore")]: UTF-8, where a byte sequence that is not
    well formed is skipped instead of raising. An ill-formed sequence ends
    before the first byte that cannot continue it; input that stops in the
    middle of a sequence is skipped to its end. *)

Definition is_cont (b : N) : bool := ((128 <=? b) && (b <=? 191))%N.

(** Whether [b1] may follow the lead byte [b0] of a 3- or 4-byte sequence
    (overlong forms, surrogates and values above U+10FFFF are excluded). *)
Definition second_ok (b0 b1 : N) : bool :=
  (if b0 =? 224 then (160 <=? b1) && (b1 <=? 191)
   else if b0 =? 237 then (128 <=? b1) && (b1 <=? 159)
   else if b0 =? 240 then (144 <=? b1) && (b1 <=? 191)
   else if b0 =? 244 then (128 <=? b1) && (b1 <=? 143)
   else is_cont b1)%N.

Definition low6 (b : N) : N := N.land b 63.

Fixpoint utf8_decode_ignore (bs : list N) : str :=
  match bs with
  | [] => []
  | b0 :: r0 =>
      if (b0 <? 128)%N then b0 :: utf8_decode_ignore r0
      else if (b0 <? 194)%N then utf8_decode_ignore r0
      else if (b0 <? 224)%N then
        match r0 with
        | [] => []
        | b1 :: r1 =>
            if is_cont b1
            then N.lor (N.shiftl (N.land b0 31) 6) (low6 b1)
                 :: utf8_decode_ignore r1
            else utf8_decode_ignore r0
        end
      else if (b0 <? 240)%N then
        match r0 with
        | [] => []
        | b1 :: r1 =>
            if second_ok b0 b1 then
              match r1 with
              | [] => []
              | b2 :: r2 =>
                  if is_cont b2
                  then N.lor (N.shiftl (N.land b0 15) 12)
                         (N.lor (N.shiftl (low6 b1) 6) (low6 b2))
                       :: utf8_decode_ignore r2
                  else utf8_decode_ignore r1
              end
            else utf8_decode_ignore r0
        end
      else if (b0 <? 245)%N then
        match r0 with
        | [] => []
        | b1 :: r1 =>
            if second_ok b0 b1 then
              match r1 with
              | [] => []
              | b2 :: r2 =>
                  if is_cont b2 then
                    match r2 with
                    | [] => []
                    | b3 :: r3 =>
                        if is_cont b3
                        then N.lor (N.shiftl (N.land b0 7) 18)
                               (N.lor (N.shiftl (low6 b1) 12)
                                  (N.lor (N.shiftl (low6 b2) 6) (low6 b3)))
                             :: utf8_decode_ignore r3
                        else utf8_decode_ignore r2
                    end
                  else utf8_decode_ignore r1
              end
            else utf8_decode_ignore r0
        end
      else utf8_decode_ignore r0
  end.

Definition decode_ignore (b : bytes) : str :=
  utf8_decode_ignore (map Byte.to_N b).

(* ================================================================== *)
(** * Effects of the handlers *)
(* ================================================================== *)

(** The calls the bridge makes on its two transports, and its log line. *)
Inductive effect : Type :=
| SendMessage (chat_id : Z) (text : str)
| SendText (text : str) (destinationId : str)
| Print (msg : str) (e : exn).

(** A computation: the effects it performed, in order, and how it ended.
    A computation that raises keeps the effects performed before. *)
Definition io (A : Type) : Type := list effect * outcome A.

Definition ret {A} (a : A) : io A := ([], Returned a).

Definition bind {A B} (m : io A) (f : A -> io B) : io B :=
  match m with
  | (t, Returned a) => let '(t', r) := f a in (t ++ t', r)
  | (t, Raised e) => (t, Raised e)
  end.

Notation "m ;; k" := (bind m (fun _ => k))
  (at level 61, right associativity).

(** [try: m  except Exception as e: h e]. What is raised without being
    an [Exception] is not caught. *)
Definition try_except {A} (m : io A) (h : exn -> io A) : io A :=
  match m with
  | (t, Raised e) =>
      if is_exception e then let '(t', r) := h e in (t ++ t', r) else m
  | (_, Returned _) => m
  end.

(** [for x in xs: body x] *)
Fixpoint for_each {A} (xs : list A) (body : A -> io unit) : io unit :=
  match xs with
  | [] => ret tt
  | x :: r => body x ;; for_each r body
  end.

Definition trace {A} (m : io A) : list effect := fst m.
Definition result {A} (m : io A) : outcome A := snd m.

(** The outbound chat calls of a trace: (chat id, text). *)
Fixpoint chat_calls (t : list effect) : list (Z * str) :=
  match t with
  | [] => []
  | SendMessage c m :: r => (c, m) :: chat_calls r
  | _ :: r => chat_calls r
  end.

(** The outbound mesh sends of a trace: (body, destination). *)
Fixpoint mesh_sends (t : list effect) : list (str * str) :=
  match t with
  | [] => []
  | SendText b d :: r => (b, d) :: mesh_sends r
  | _ :: r => mesh_sends r
  end.

(* ================================================================== *)
(** * The bridge *)
(* ================================================================== *)

(** A packet of the mesh transport: a dict in which each of the fields read
    by the bridge may be absent. *)
Record decoded_fields : Type := { payload : option bytes }.

Record packet : Type := {
  fromId : option str;
  to : option Z;
  decoded : option decoded_fields
}.

(** A chat update: [update.effective_chat.id] and [update.message.text].
    The text is [None] for an update without [message] (an edited message,
    a channel post), on which reading [update.message.text] raises. *)
Record update : Type := {
  effective_chat_id : Z;
  message_text : option str
}.

(** The global [main_loop]: [None] until [main] has stored the event loop,
    then that loop, open, and closed once polling has ended. *)
Inductive loop_state : Type :=
| LoopUnset
| LoopOpen
| LoopClosed.

(** Special Meshtastic broadcast ID: [int("ffffffff", 16)]. *)
Definition MESHTASTIC_BROADCAST_ID : Z :=
  match int_of_str 16 (lit "ffffffff") with
  | Returned n => n
  | Raised _ => 0
  end.

(** [node_id_to_telegram_id]: [str(int(node_id[1:], 16))] *)
Definition node_id_to_telegram_id (node_id : str) : outcome str :=
  obind (int_of_str 16 (slice_from 1 node_id))
        (fun n => Returned (str_of_int n)).

(** [telegram_id_to_node_id]: ["!" + format(int(telegram_id), "08x")] *)
Definition telegram_id_to_node_id (telegram_id : str) : outcome str :=
  obind (int_of_str 10 telegram_id)
        (fun n => Returned (lit "!" ++ format_08x n)).

(** The comprehension [{node_id: name for name, node_id in d.items()}]. *)
Definition invert (d : dict str) : dict str :=
  dict_of_items (map (fun kv => (snd kv, fst kv)) (dict_items d)).

(** [from_id in d], where [from_id] may be [None]. *)
Definition contains_opt {V} (d : dict V) (k : option str) : bool :=
  match k with
  | Some s => dict_contains d s
  | None => false
  end.

(** [d.get(k, k)], where [k] may be [None]. *)
Definition get_or_self (d : dict str) (k : option str) : option str :=
  match k with
  | Some s => match dict_get d s with Some v => Some v | None => k end
  | None => None
  end.

(** A replacement field of an f-string holding a string or [None]. *)
Definition fmt (v : option str) : str :=
  match v with
  | Some s => s
  | None => lit "None"
  end.

(** [x == n] for a value that is an int or [None]. *)
Definition opt_int_eqb (x : option Z) (n : Z) : bool :=
  match x with
  | Some z => z =? n
  | None => false
  end.

Definition is_empty (s : str) : bool :=
  match s with [] => true | _ :: _ => false end.

(** The two assignments that read a directive [text] (main.py, lines
    139-140): [target_name = text[1:].split(" ")[0]] and
    [message_body = text[len(target_name) + 2:]]. *)
Definition directive (text : str) : str * str :=
  let target_name := nth 0 (split 32 (slice_from 1 text)) [] in
  let message_body := slice_from (length target_name + 2) text in
  (target_name, message_body).

(** The module-level construction of the two lookup dictionaries from the
    whitelist display (main.py, lines 43-49). *)
Definition build_registry (display : list (str * str))
  : outcome (dict str * dict str) :=
  let ALLOWED_NODES := dict_of_items display in
  let NODE_ID_TO_NAME := invert ALLOWED_NODES in
  Returned (ALLOWED_NODES, NODE_ID_TO_NAME).

Section Relay.

(** Configuration: the whitelist display and the group id read at start. *)
Variable ALLOWED_NODES : dict str.
Variable TELEGRAM_GROUP_ID : Z.

(** The transports: how [bot.send_message] and [iface.sendText] end (with
    [AttributeError] while the global [bot_app] or [iface] is still
    [None]). *)
Variable bot_send_message : Z -> str -> outcome unit.
Variable iface_sendText : str -> str -> outcome unit.

(** The event loop stored by [main]. *)
Variable main_loop : loop_state.

(** Inverse mapping for quick lookups: Node ID -> Nickname *)
Definition NODE_ID_TO_NAME : dict str := invert ALLOWED_NODES.

Definition send_message (chat_id : Z) (text : str) : io unit :=
  ([SendMessage chat_id text], bot_send_message chat_id text).

Definition sendText (text destinationId : str) : io unit :=
  ([SendText text destinationId], iface_sendText text destinationId).

Definition send_to_telegram (message : str) : io unit :=
  try_except
    (send_message TELEGRAM_GROUP_ID message)
    (fun e => ([Print (lit "Failed to send message to Telegram:") e],
               Returned tt)).

(** [asyncio.run_coroutine_threadsafe(coro, main_loop)]: on an open loop
    the coroutine is handed over and the call returns, whatever becomes of
    the coroutine; its effects are recorded where it is handed over. With
    no loop the call raises [AttributeError], on a closed loop
    [RuntimeError], and the coroutine never runs. *)
Definition run_coroutine_threadsafe (coro : io unit) : io unit :=
  match main_loop with
  | LoopOpen => (trace coro, Returned tt)
  | LoopUnset => ([], Raised AttributeError)
  | LoopClosed => ([], Raised RuntimeError)
  end.

Definition on_meshtastic_receive (packet : packet) : io unit :=
  let from_id := fromId packet in
  if negb (contains_opt NODE_ID_TO_NAME from_id) then ret tt
  else if opt_int_eqb (to packet) MESHTASTIC_BROADCAST_ID then ret tt
  else
    let fields :=
      match decoded packet with
      | Some d => d
      | None => {| payload := None |}
      end in
    let raw := match payload fields with Some b => b | None => [] end in
    let text := strip (decode_ignore raw) in
    if is_empty text then ret tt
    else
      let sender_name := get_or_self NODE_ID_TO_NAME from_id in
      let message := lit "[" ++ fmt sender_name ++ lit "] " ++ text in
      run_coroutine_threadsafe (send_to_telegram message).

Definition telegram_to_mesh (update : update) : io unit :=
  if negb (effective_chat_id update =? TELEGRAM_GROUP_ID) then ret tt
  else
    match message_text update with
    | None => ([], Raised AttributeError)
    | Some raw =>
        let text := strip raw in
        if is_empty text || negb (startswith text (lit "@")) then ret tt
        else
          let '(target_name, message_body) := directive text in
          if is_empty message_body then ret tt
          else if str_eqb (lower target_name) (lit "all") then
            for_each (dict_values ALLOWED_NODES)
                     (fun node_id => sendText message_body node_id)
          else if dict_contains ALLOWED_NODES target_name then
            match dict_get ALLOWED_NODES target_name with
            | Some node_id => sendText message_body node_id
            | None => ([], Raised KeyError)
            end
          else ret tt
    end.

End Relay.

(** The whitelist of main.py: nickname -> node id. *)
Definition whitelist : dict str :=
  dict_of_items [ (lit "MSH1", lit "!deadbeef");
                  (lit "MSH2", lit "!42babe42") ].

(* ------------------------------------------------------------------ *)
(** ** Vocabulary of the properties *)

(** A digit of [base], in either case. *)
Definition is_digit (base : Z) (c : N) : bool :=
  match digit_value c with
  | Some d => d <? base
  | None => false
  end.

(** A digit of [base] as [format] and [str] print it. *)
Definition is_lower_digit (base : Z) (c : N) : bool :=
  match digit_value c with
  | Some d => (d <? base) && (c =? digit_char d)%N
  | None => false
  end.

(** The number a string of digits denotes, continuing from [acc]. *)
Fixpoint digits_value (base : Z) (s : str) (acc : Z) : Z :=
  match s with
  | [] => acc
  | c :: r =>
      digits_value base r
        (acc * base + match digit_value c with Some d => d | None => 0 end)
  end.

(** Canonical NodeIdentifier: the marker [!] and exactly eight lowercase
    hexadecimal digits. *)
Definition canonical (n : str) : bool :=
  match n with
  | m :: h => (m =? 33)%N && (length h =? 8)%nat
              && forallb (is_lower_digit 16) h
  | [] => false
  end.

(** The part of [s] before the first character satisfying [stop]. *)
Fixpoint up_to (stop : N -> bool) (s : str) : str :=
  match s with
  | [] => []
  | c :: r => if stop c then [] else c :: up_to stop r
  end.

(** The part of [s] after the first character satisfying [stop]; empty
    when there is none. *)
Fixpoint after (stop : N -> bool) (s : str) : str :=
  match s with
  | [] => []
  | c :: r => if stop c then r else after stop r
  end.

Definition is_space_char (c : N) : bool := (c =? 32)%N.

(** The target token and the message body in the words of the
    specification: the target runs up to the first whitespace character,
    the body is everything after that whitespace. *)
Definition spec_target_token (text : str) : str :=
  up_to isspace (slice_from 1 text).

Definition spec_message_body (text : str) : str :=
  after isspace (slice_from 1 text).

(** The configuration read when the module is loaded (main.py, lines
    35-39): [os.getenv("TELEGRAM_BOT_TOKEN")], then
    [int(os.getenv("TELEGRAM_GROUP_ID", "0"))], then a [ValueError] when the
    token is missing or empty or the group id is 0. The two arguments are
    the values of the environment variables, [None] when unset. *)
Definition startup_config (env_token env_group : option str)
  : outcome (option str * Z) :=
  let TELEGRAM_BOT_TOKEN := env_token in
  obind (int_of_str 10 (match env_group with
                        | Some v => v
                        | None => lit "0"
                        end))
    (fun TELEGRAM_GROUP_ID =>
       if match TELEGRAM_BOT_TOKEN with
          | Some t => is_empty t
          | None => true
          end || (TELEGRAM_GROUP_ID =? 0)
       then Raised ValueError
       else Returned (TELEGRAM_BOT_TOKEN, TELEGRAM_GROUP_ID)).

(** What [int_of_str] does once the whitespace in front and the sign are
    read: the part of its body from the prefix test on. *)
Definition after_sign (base : Z) (neg : bool) (s2 : str) : outcome Z :=
  let s3 :=
    match s2 with
    | c0 :: c1 :: r =>
        if (base =? 16) && (c0 =? 48)%N && ((c1 =? 120) || (c1 =? 88))%N
        then match r with
             | u :: r' => if (u =? 95)%N then r' else r
             | [] => r
             end
        else s2
    | _ => s2
    end in
  match s3 with
  | [] => Raised ValueError
  | c :: _ =>
      if (c =? 95)%N then Raised ValueError
      else match digit_run base s3 false 0 0 with
           | Some (v, S _, rest) =>
               if forallb int_space rest
               then Returned (if neg then - v else v)
               else Raised ValueError
           | _ => Raised ValueError
           end
  end.

(** The characters a text read by [int(s, base)] can hold at all:
    whitespace, a sign, an underscore, a digit of the base and, for base
    16, the [x] of the prefix. *)
Definition int_char (base : Z) (c : N) : bool :=
  int_space c || (c =? 43)%N || (c =? 45)%N || (c =? 95)%N
  || is_digit base c
  || (base =? 16) && ((c =? 120) || (c =? 88))%N.

(** Bytes of a payload that leave no text: ASCII whitespace, and bytes
    that cannot start a UTF-8 sequence. *)
Definition blank_byte (b : N) : bool :=
  ((b <? 128) && isspace b || (128 <=? b) && (b <? 194) || (245 <=? b))%N.

(* ------------------------------------------------------------------ *)
(** ** Scenarios *)

(** A transport on which every call succeeds. *)
Definition always_ok {A B : Type} : A -> B -> outcome unit :=
  fun _ _ => Returned tt.

(** A mesh transport on which the sends to [dest] fail. *)
Definition fails_for (dest : str) : str -> str -> outcome unit :=
  fun _ d => if str_eqb d dest then Raised TransportError else Returned tt.

(** A packet with all its fields. *)
Definition text_packet (sender : string) (dest : option Z) (body : string)
  : packet :=
  {| fromId := Some (lit sender);
     to := dest;
     decoded := Some {| payload := Some (blit body) |} |}.

(* ================================================================== *)
(** * Basic facts *)
(* ================================================================== *)

Lemma str_eqb_spec (a b : str) : reflect (a = b) (str_eqb a b).
Proof.
  revert b; induction a as [|x a IH]; intros [|y b]; simpl;
    try (constructor; congruence).
  destruct (N.eqb_spec x y) as [->|Hxy]; simpl.
  - destruct (IH b) as [->|Hab]; constructor; congruence.
  - constructor; congruence.
Qed.

Lemma str_eqb_refl (a : str) : str_eqb a a = true.
Proof. destruct (str_eqb_spec a a); congruence. Qed.

Section DictFacts.

Context {V : Type}.
Implicit Types (d : dict V) (k : str) (v : V).

Lemma dict_get_app d1 d2 k :
  dict_get (d1 ++ d2) k =
  match dict_get d1 k with Some v => Some v | None => dict_get d2 k end.
Proof.
  induction d1 as [|[k' v'] d1 IH]; simpl; [reflexivity|].
  destruct (str_eqb k' k); [reflexivity | exact IH].
Qed.

Lemma dict_get_None d k : dict_get d k = None <-> ~ In k (dict_keys d).
Proof.
  induction d as [|[k' v'] d IH]; simpl; [tauto|].
  destruct (str_eqb_spec k' k) as [->|Hne]; split; intros H.
  - discriminate.
  - exfalso; apply H; now left.
  - intros [E|Hin]; [congruence | now apply IH].
  - apply IH; intros Hin; apply H; now right.
Qed.

Lemma dict_get_Some_In d k v : dict_get d k = Some v -> In (k, v) d.
Proof.
  induction d as [|[k' v'] d IH]; simpl; [discriminate|].
  destruct (str_eqb_spec k' k) as [->|Hne]; intros H.
  - left; congruence.
  - right; now apply IH.
Qed.

Lemma dict_get_set d k v k' :
  dict_get (dict_set d k v) k' =
  if str_eqb k k' then Some v else dict_get d k'.
Proof.
  induction d as [|[k0 v0] d IH]; simpl.
  - reflexivity.
  - destruct (str_eqb_spec k0 k) as [->|Hne]; simpl.
    + destruct (str_eqb k k'); reflexivity.
    + destruct (str_eqb_spec k0 k') as [->|Hne'].
      * destruct (str_eqb_spec k k'); congruence.
      * exact IH.
Qed.

Lemma dict_keys_set d k v :
  dict_keys (dict_set d k v) =
  if dict_contains d k then dict_keys d else dict_keys d ++ [k].
Proof.
  unfold dict_contains.
  induction d as [|[k0 v0] d IH]; simpl; [reflexivity|].
  destruct (str_eqb k0 k); simpl; [reflexivity|].
  rewrite IH. destruct (dict_get d k); reflexivity.
Qed.

Lemma dict_set_NoDup d k v :
  NoDup (dict_keys d) -> NoDup (dict_keys (dict_set d k v)).
Proof.
  intros Hnd. rewrite dict_keys_set. unfold dict_contains.
  destruct (dict_get d k) eqn:Hg; [exact Hnd|].
  apply dict_get_None in Hg.
  apply NoDup_rev in Hnd. rewrite <- (rev_involutive (_ ++ _)).
  apply NoDup_rev. rewrite rev_app_distr; simpl.
  constructor; [now rewrite <- in_rev | exact Hnd].
Qed.

Lemma fold_set_get (items : list (str * V)) d k :
  dict_get (fold_left (fun d kv => dict_set d (fst kv) (snd kv)) items d) k =
  match dict_get (rev items) k with
  | Some v => Some v
  | None => dict_get d k
  end.
Proof.
  revert d; induction items as [|[k0 v0] items IH]; intros d; simpl.
  - reflexivity.
  - rewrite IH, dict_get_app, dict_get_set; simpl.
    destruct (dict_get (rev items) k); [reflexivity|].
    destruct (str_eqb k0 k); reflexivity.
Qed.

Lemma fold_set_NoDup (items : list (str * V)) d :
  NoDup (dict_keys d) ->
  NoDup (dict_keys
           (fold_left (fun d kv => dict_set d (fst kv) (snd kv)) items d)).
Proof.
  revert d; induction items as [|kv items IH]; intros d Hd; simpl.
  - exact Hd.
  - apply IH, dict_set_NoDup, Hd.
Qed.

(** Looking a key up in a display: the last item given for it wins. *)
Lemma dict_of_items_get (items : list (str * V)) k :
  dict_get (dict_of_items items) k = dict_get (rev items) k.
Proof.
  unfold dict_of_items. rewrite fold_set_get.
  destruct (dict_get (rev items) k); reflexivity.
Qed.

Lemma dict_of_items_NoDup (items : list (str * V)) :
  NoDup (dict_keys (dict_of_items items)).
Proof. apply fold_set_NoDup. constructor. Qed.

End DictFacts.

(** The reverse view has an entry for exactly the identifiers that occur,
    as written, among the values of the whitelist. *)
Lemma invert_contains (d : dict str) (id : str) :
  dict_contains (invert d) id = true <-> In id (dict_values d).
Proof.
  unfold dict_contains, invert, dict_items.
  rewrite dict_of_items_get.
  destruct (dict_get _ id) eqn:Hg.
  - split; [intros _ | reflexivity].
    apply dict_get_Some_In in Hg. rewrite <- in_rev in Hg.
    apply in_map_iff in Hg. destruct Hg as [[k v] [E Hin]].
    simpl in E. inversion E; subst.
    unfold dict_values. apply in_map_iff. now exists (s, id).
  - split; [discriminate|]. intros Hin. exfalso.
    apply dict_get_None in Hg. apply Hg.
    unfold dict_keys. rewrite map_rev, <- in_rev, map_map; simpl.
    exact Hin.
Qed.

(* ================================================================== *)
(** * Digits *)
(* ================================================================== *)

Ltac cmp1 :=
  match goal with
  | |- context [(?a <=? ?b)%N] => destruct (N.leb_spec a b)
  | |- context [(?a <? ?b)%N] => destruct (N.ltb_spec a b)
  | |- context [(?a =? ?b)%N] => destruct (N.eqb_spec a b)
  | |- context [?a <=? ?b] => destruct (Z.leb_spec a b)
  | |- context [?a <? ?b] => destruct (Z.ltb_spec a b)
  | |- context [?a =? ?b] => destruct (Z.eqb_spec a b)
  end.

Ltac cmp := repeat (cmp1; cbn [andb orb negb]; try lia; try congruence).

Lemma digit_value_char (d : Z) :
  0 <= d < 36 -> digit_value (digit_char d) = Some d.
Proof.
  intros Hd. unfold digit_char.
  destruct (Z.ltb_spec d 10).
  - unfold digit_value.
    replace (Z.to_N (48 + d)) with (48 + Z.to_N d)%N by lia.
    cmp. f_equal; lia.
  - unfold digit_value.
    replace (Z.to_N (87 + d)) with (87 + Z.to_N d)%N by lia.
    cmp. f_equal; lia.
Qed.

(** A digit character is a letter or a figure. *)
Lemma digit_value_Some (c : N) (d : Z) :
  digit_value c = Some d ->
  ((48 <= c <= 57)%N /\ d = Z.of_N c - 48) \/
  ((97 <= c <= 122)%N /\ d = Z.of_N c - 87) \/
  ((65 <= c <= 90)%N /\ d = Z.of_N c - 55).
Proof.
  unfold digit_value.
  destruct (N.leb_spec 48 c), (N.leb_spec c 57); simpl;
    try (intros E; inversion E; lia);
  destruct (N.leb_spec 97 c), (N.leb_spec c 122); simpl;
    try (intros E; inversion E; lia);
  destruct (N.leb_spec 65 c), (N.leb_spec c 90); simpl;
    try (intros E; inversion E; lia); discriminate.
Qed.

Lemma is_digit_lower base c : is_lower_digit base c = true -> is_digit base c = true.
Proof.
  unfold is_lower_digit, is_digit. destruct (digit_value c); [|easy].
  now intros H%andb_prop.
Qed.

Lemma forallb_is_digit_lower base s :
  forallb (is_lower_digit base) s = true -> forallb (is_digit base) s = true.
Proof.
  rewrite !forallb_forall. intros H c Hc. now apply is_digit_lower, H.
Qed.

Lemma is_digit_inv base c :
  is_digit base c = true -> exists d, digit_value c = Some d /\ d < base.
Proof.
  unfold is_digit. destruct (digit_value c) as [d|]; [|discriminate].
  intros H%Z.ltb_lt. now exists d.
Qed.

Lemma is_digit_plain base c :
  is_digit base c = true ->
  int_space c = false /\ c <> 43%N /\ c <> 45%N /\ c <> 95%N.
Proof.
  intros (d & Hd & _)%is_digit_inv.
  apply digit_value_Some in Hd.
  unfold int_space, isspace.
  destruct Hd as [[H _]|[[H _]|[H _]]]; (split; [cmp | lia]).
Qed.

Lemma digits_value_app base x y a :
  digits_value base (x ++ y) a = digits_value base y (digits_value base x a).
Proof. revert a; induction x as [|c x IH]; intros a; simpl; [reflexivity | apply IH]. Qed.

Section Digits.

Variable base : Z.
Hypothesis base_lo : 2 <= base.
Hypothesis base_hi : base <= 16.

Lemma digit_value_nonneg c d : digit_value c = Some d -> 0 <= d.
Proof. intros H%digit_value_Some. lia. Qed.

(** On a string of digits the scan of [int()] reads everything. *)
Lemma digit_run_digits s :
  forallb (is_digit base) s = true ->
  forall pu acc cnt, s <> [] \/ pu = false ->
  digit_run base s pu acc cnt =
  Some (digits_value base s acc, (cnt + length s)%nat, []).
Proof.
  induction s as [|c s IH]; intros Hall pu acc cnt Hne; simpl.
  - destruct Hne as [Hne| ->]; [congruence|].
    now rewrite Nat.add_0_r.
  - simpl in Hall. apply andb_prop in Hall as [Hc Hs].
    destruct (is_digit_plain _ _ Hc) as (_ & _ & _ & Hus).
    destruct (N.eqb_spec c 95); [congruence|].
    apply is_digit_inv in Hc as (d & Hd & Hlt).
    rewrite Hd. destruct (Z.ltb_spec d base); [|lia].
    rewrite (IH Hs false) by now right.
    now rewrite Nat.add_succ_r.
Qed.

(** The digits [int()] reads in a text made ASCII are left as they are. *)
Lemma to_ascii_digits s :
  forallb (is_digit base) s = true -> map to_ascii s = s.
Proof.
  induction s as [|c s IH]; [reflexivity|].
  intros H. simpl in H. apply andb_prop in H as [Hc Hs].
  simpl. rewrite (IH Hs). f_equal.
  apply is_digit_inv in Hc as (d & Hd & _).
  apply digit_value_Some in Hd. unfold to_ascii.
  destruct (N.ltb_spec c 127); [reflexivity | lia].
Qed.

Lemma int_of_ascii_digits s :
  forallb (is_digit base) s = true -> s <> [] ->
  int_of_ascii base s = Returned (digits_value base s 0).
Proof.
  intros Hall Hne. destruct s as [|c0 s]; [congruence|].
  pose proof Hall as Hall'.
  simpl in Hall. apply andb_prop in Hall as [Hc0 Hs].
  destruct (is_digit_plain _ _ Hc0) as (Hsp & Hplus & Hminus & Hus).
  unfold int_of_ascii. simpl skip_space. rewrite Hsp.
  destruct (N.eqb_spec c0 43); [congruence|].
  destruct (N.eqb_spec c0 45); [congruence|].
  assert (Hprefix :
    match s with
    | c1 :: r =>
        (base =? 16) && (c0 =? 48)%N && ((c1 =? 120) || (c1 =? 88))%N
    | [] => false
    end = false).
  { destruct s as [|c1 r]; [reflexivity|].
    simpl in Hs. apply andb_prop in Hs as [Hc1 _].
    apply is_digit_inv in Hc1 as (d & Hd & Hlt).
    apply digit_value_Some in Hd.
    destruct (N.eqb_spec c1 120), (N.eqb_spec c1 88);
      rewrite ?andb_false_r; try reflexivity; lia. }
  destruct s as [|c1 r].
  - destruct (N.eqb_spec c0 95); [congruence|].
    rewrite (digit_run_digits [c0] Hall' false 0 0%nat) by now right.
    reflexivity.
  - rewrite Hprefix.
    destruct (N.eqb_spec c0 95); [congruence|].
    rewrite (digit_run_digits (c0 :: c1 :: r) Hall' false 0 0%nat)
      by now right.
    reflexivity.
Qed.

(** [int(s, base)] on a non-empty string of digits. *)
Lemma int_of_str_digits s :
  forallb (is_digit base) s = true -> s <> [] ->
  int_of_str base s = Returned (digits_value base s 0).
Proof.
  intros Hall Hne. unfold int_of_str. rewrite (to_ascii_digits s Hall).
  now apply int_of_ascii_digits.
Qed.

(** The digits [to_digits] puts in front of [acc]. *)
Lemma to_digits_spec f : forall n acc,
  0 <= n < base ^ Z.of_nat (S f) ->
  exists ds, to_digits (S f) base n acc = ds ++ acc /\ ds <> [] /\
             forallb (is_lower_digit base) ds = true /\
             digits_value base ds 0 = n.
Proof.
  assert (Hdigit : forall n, 0 <= n ->
            is_lower_digit base (digit_char (n mod base)) = true /\
            digit_value (digit_char (n mod base)) = Some (n mod base)).
  { intros n Hn.
    assert (0 <= n mod base < base) by (apply Z.mod_pos_bound; lia).
    assert (E : digit_value (digit_char (n mod base)) = Some (n mod base))
      by (apply digit_value_char; lia).
    split; [|exact E]. unfold is_lower_digit. rewrite E.
    rewrite N.eqb_refl, andb_true_r. apply Z.ltb_lt; lia. }
  induction f as [|f IH]; intros n acc Hn.
  - change (Z.of_nat 1) with 1 in Hn. rewrite Z.pow_1_r in Hn.
    simpl. rewrite Z.div_small, Z.mod_small by lia. simpl.
    exists [digit_char n]. destruct (Hdigit n) as [H1 H2]; [lia|].
    rewrite Z.mod_small in H1, H2 by lia.
    repeat split; [congruence | simpl; now rewrite H1 | simpl; now rewrite H2].
  - destruct (Hdigit n) as [H1 H2]; [lia|].
    change (to_digits (S (S f)) base n acc) with
      (if n / base =? 0 then digit_char (n mod base) :: acc
       else to_digits (S f) base (n / base) (digit_char (n mod base) :: acc)).
    destruct (Z.eqb_spec (n / base) 0) as [Hz|Hnz].
    + exists [digit_char (n mod base)].
      repeat split; [congruence | simpl; now rewrite H1 |].
      simpl. rewrite H2. pose proof (Z.div_mod n base). lia.
    + destruct (IH (n / base) (digit_char (n mod base) :: acc))
        as (ds & E & Hne & Hall & Hval).
      { split; [apply Z.div_pos; lia|].
        apply Z.div_lt_upper_bound; [lia|].
        rewrite Nat2Z.inj_succ, Z.pow_succ_r in Hn by lia. lia. }
      exists (ds ++ [digit_char (n mod base)]).
      rewrite E, <- app_assoc. repeat split.
      * intros H; now apply app_eq_nil in H as [_ H].
      * rewrite forallb_app, Hall. simpl. now rewrite H1.
      * rewrite digits_value_app, Hval. simpl. rewrite H2.
        pose proof (Z.div_mod n base). lia.
Qed.

Lemma digits_fuel n : 0 <= n -> n < base ^ Z.of_nat (S (Z.to_nat (Z.log2 n))).
Proof.
  intros Hn. rewrite Nat2Z.inj_succ, Z2Nat.id by apply Z.log2_nonneg.
  destruct (Z.eq_dec n 0) as [->|Hnz].
  - simpl. lia.
  - assert (n < 2 ^ Z.succ (Z.log2 n)) by (apply Z.log2_spec; lia).
    assert (2 ^ Z.succ (Z.log2 n) <= base ^ Z.succ (Z.log2 n)).
    { apply Z.pow_le_mono_l. lia. }
    lia.
Qed.

Lemma digits_spec n :
  0 <= n ->
  digits base n <> [] /\
  forallb (is_lower_digit base) (digits base n) = true /\
  digits_value base (digits base n) 0 = n.
Proof.
  intros Hn. unfold digits.
  destruct (to_digits_spec (Z.to_nat (Z.log2 n)) n [])
    as (ds & E & Hne & Hall & Hval).
  { split; [exact Hn | now apply digits_fuel]. }
  rewrite E, app_nil_r. auto.
Qed.

Lemma to_digits_length f : forall n acc (k : nat),
  (1 <= k)%nat -> 0 <= n < base ^ Z.of_nat k ->
  (length (to_digits f base n acc) <= k + length acc)%nat.
Proof.
  induction f as [|f IH]; intros n acc k Hk Hn; simpl; [lia|].
  destruct (Z.eqb_spec (n / base) 0) as [Hz|Hnz]; simpl; [lia|].
  destruct k as [|[|k]]; [lia | |].
  - change (Z.of_nat 1) with 1 in Hn. rewrite Z.pow_1_r in Hn.
    rewrite Z.div_small in Hnz by lia. congruence.
  - specialize (IH (n / base) (digit_char (n mod base) :: acc) (S k)).
    cbn [length] in IH.
    assert (0 <= n / base < base ^ Z.of_nat (S k)).
    { split; [apply Z.div_pos; lia|].
      apply Z.div_lt_upper_bound; [lia|].
      rewrite (Nat2Z.inj_succ (S k)), Z.pow_succ_r in Hn by lia. lia. }
    specialize (IH ltac:(lia) ltac:(assumption)). lia.
Qed.

(** A number below [base ^ k] has at most [k] digits. *)
Lemma digits_length_le n (k : nat) :
  (1 <= k)%nat -> 0 <= n < base ^ Z.of_nat k ->
  (length (digits base n) <= k)%nat.
Proof.
  intros Hk Hn. unfold digits.
  pose proof (to_digits_length (S (Z.to_nat (Z.log2 n))) n [] k Hk Hn) as H.
  cbn [length] in H. now rewrite Nat.add_0_r in H.
Qed.

Lemma digits_value_bound s :
  forallb (is_digit base) s = true ->
  (forall a, digits_value base s a =
             a * base ^ Z.of_nat (length s) + digits_value base s 0) /\
  0 <= digits_value base s 0 < base ^ Z.of_nat (length s).
Proof.
  induction s as [|c s IH]; intros Hall.
  - simpl. split; [intros a; lia | lia].
  - simpl in Hall. apply andb_prop in Hall as [Hc Hs].
    destruct (IH Hs) as [IHa IHb].
    apply is_digit_inv in Hc as (d & Hd & Hlt).
    pose proof (digit_value_nonneg _ _ Hd) as Hd0.
    cbn [digits_value length]. rewrite Hd.
    rewrite Nat2Z.inj_succ, Z.pow_succ_r by lia.
    set (P := base ^ Z.of_nat (length s)) in *.
    split.
    + intros a. rewrite (IHa (a * base + d)), (IHa (0 * base + d)). ring.
    + rewrite (IHa (0 * base + d)). nia.
Qed.

(** Strings of printed digits of one length denote different numbers. *)
Lemma digits_value_inj x : forall y,
  length x = length y ->
  forallb (is_lower_digit base) x = true ->
  forallb (is_lower_digit base) y = true ->
  digits_value base x 0 = digits_value base y 0 -> x = y.
Proof.
  induction x as [|c x IH]; intros [|c' y] Hlen Hx Hy Hv;
    try discriminate; [reflexivity|].
  simpl in Hlen. injection Hlen as Hlen.
  simpl in Hx, Hy.
  apply andb_prop in Hx as [Hc Hx]. apply andb_prop in Hy as [Hc' Hy].
  destruct (digits_value_bound x (forallb_is_digit_lower _ _ Hx)) as [Xa Xb].
  destruct (digits_value_bound y (forallb_is_digit_lower _ _ Hy)) as [Ya Yb].
  unfold is_lower_digit in Hc, Hc'.
  destruct (digit_value c) as [d|] eqn:Hd; [|discriminate].
  destruct (digit_value c') as [d'|] eqn:Hd'; [|discriminate].
  apply andb_prop in Hc as [Hlt Hcd]. apply andb_prop in Hc' as [Hlt' Hcd'].
  apply N.eqb_eq in Hcd, Hcd'. apply Z.ltb_lt in Hlt, Hlt'.
  pose proof (digit_value_nonneg _ _ Hd).
  pose proof (digit_value_nonneg _ _ Hd').
  cbn [digits_value] in Hv. rewrite Hd, Hd' in Hv.
  rewrite (Xa (0 * base + d)), (Ya (0 * base + d')) in Hv.
  rewrite <- Hlen in *.
  set (P := base ^ Z.of_nat (length x)) in *.
  assert (d = d') by nia. subst d'.
  assert (digits_value base x 0 = digits_value base y 0) by lia.
  f_equal; [congruence | now apply IH].
Qed.

(** Zeros in front do not change the number. *)
Lemma digits_value_zeros (k : nat) s :
  digits_value base (repeat 48%N k ++ s) 0 = digits_value base s 0.
Proof.
  induction k as [|k IH]; [reflexivity | exact IH].
Qed.

Lemma zeros_lower (k : nat) :
  forallb (is_lower_digit base) (repeat 48%N k) = true.
Proof.
  induction k as [|k IH]; simpl; [reflexivity|]. rewrite IH.
  unfold is_lower_digit. simpl.
  destruct (Z.ltb_spec 0 base); [reflexivity | lia].
Qed.

(** Printing a non-negative number and reading it back. *)
Lemma int_of_str_of_digits n :
  0 <= n -> int_of_str base (digits base n) = Returned n.
Proof.
  intros Hn. destruct (digits_spec n Hn) as (Hne & Hall & Hval).
  rewrite int_of_str_digits; [now rewrite Hval | | exact Hne].
  now apply forallb_is_digit_lower.
Qed.

End Digits.

(* ================================================================== *)
(** * Identifier conversions *)
(* ================================================================== *)

Lemma str_of_int_nonneg x : 0 <= x -> str_of_int x = digits 10 x.
Proof. intros H. unfold str_of_int. destruct (Z.ltb_spec x 0); [lia | reflexivity]. Qed.

Lemma format_08x_nonneg x :
  0 <= x ->
  format_08x x = repeat 48%N (8 - length (digits 16 x)) ++ digits 16 x.
Proof.
  intros H. unfold format_08x.
  destruct (Z.ltb_spec x 0); [lia|].
  rewrite Z.abs_eq by lia. reflexivity.
Qed.

Lemma format_08x_lower x :
  0 <= x -> forallb (is_lower_digit 16) (format_08x x) = true.
Proof.
  intros H. rewrite format_08x_nonneg by lia.
  destruct (digits_spec 16 ltac:(lia) ltac:(lia) x H) as (_ & Hall & _).
  rewrite forallb_app, Hall, zeros_lower by lia. reflexivity.
Qed.

Lemma format_08x_value x : 0 <= x -> digits_value 16 (format_08x x) 0 = x.
Proof.
  intros H. rewrite format_08x_nonneg by lia.
  rewrite digits_value_zeros.
  now destruct (digits_spec 16 ltac:(lia) ltac:(lia) x H) as (_ & _ & Hv).
Qed.

Lemma format_08x_length x :
  0 <= x <= 4294967295 -> length (format_08x x) = 8%nat.
Proof.
  intros H. rewrite format_08x_nonneg by lia.
  pose proof (digits_length_le 16 ltac:(lia) x 8 ltac:(lia)) as Hl.
  change (16 ^ Z.of_nat 8) with 4294967296 in Hl.
  specialize (Hl ltac:(lia)).
  rewrite length_app, repeat_length. lia.
Qed.

Lemma int_of_str_format x : 0 <= x -> int_of_str 16 (format_08x x) = Returned x.
Proof.
  intros H.
  rewrite int_of_str_digits.
  - now rewrite format_08x_value.
  - now apply forallb_is_digit_lower, format_08x_lower.
  - rewrite format_08x_nonneg by lia.
    destruct (digits_spec 16 ltac:(lia) ltac:(lia) x H) as (Hne & _).
    intros E. now apply app_eq_nil in E as [_ E].
Qed.

(** What [telegram_id_to_node_id] gives on the decimal text of [x >= 0]. *)
Lemma telegram_id_to_node_id_nonneg x :
  0 <= x ->
  telegram_id_to_node_id (str_of_int x) = Returned (lit "!" ++ format_08x x).
Proof.
  intros H. unfold telegram_id_to_node_id.
  rewrite str_of_int_nonneg by lia.
  now rewrite (int_of_str_of_digits 10 ltac:(lia) ltac:(lia)).
Qed.

(** What [node_id_to_telegram_id] gives on a marker and eight digits. *)
Lemma node_id_to_telegram_id_digits m h :
  forallb (is_lower_digit 16) h = true -> h <> [] ->
  node_id_to_telegram_id (m :: h) =
  Returned (str_of_int (digits_value 16 h 0)).
Proof.
  intros Hall Hne. unfold node_id_to_telegram_id, slice_from. simpl skipn.
  rewrite int_of_str_digits;
    [reflexivity | now apply forallb_is_digit_lower | exact Hne].
Qed.

(** C5. The two conversions are inverse to each other: for every integer
    [x] with [0 <= x <= 0xFFFFFFFF], converting its decimal text to a node
    id gives a canonical id (marker and eight lowercase hex digits) that
    converts back to the same decimal text; and every canonical node id
    converts to the decimal text of such an integer, which converts back
    to the same node id. *)
Theorem codec_round_trip :
  (forall x, 0 <= x <= 4294967295 ->
     exists n, telegram_id_to_node_id (str_of_int x) = Returned n /\
               canonical n = true /\
               node_id_to_telegram_id n = Returned (str_of_int x)) /\
  (forall n, canonical n = true ->
     exists x, 0 <= x <= 4294967295 /\
               node_id_to_telegram_id n = Returned (str_of_int x) /\
               telegram_id_to_node_id (str_of_int x) = Returned n).
Proof.
  split.
  - intros x Hx. exists (lit "!" ++ format_08x x).
    split; [apply telegram_id_to_node_id_nonneg; lia|].
    change (lit "!" ++ format_08x x) with (33%N :: format_08x x).
    split.
    + unfold canonical. rewrite format_08x_length, format_08x_lower by lia.
      reflexivity.
    + rewrite node_id_to_telegram_id_digits.
      * now rewrite format_08x_value by lia.
      * apply format_08x_lower; lia.
      * pose proof (format_08x_length x Hx) as Hl.
        destruct (format_08x x); [discriminate | congruence].
  - intros [|m h] Hn; [discriminate|].
    unfold canonical in Hn.
    apply andb_prop in Hn as [Hn Hall]. apply andb_prop in Hn as [Hm Hlen].
    apply N.eqb_eq in Hm. apply Nat.eqb_eq in Hlen. subst m.
    destruct (digits_value_bound 16 ltac:(lia) ltac:(lia) h
                (forallb_is_digit_lower _ _ Hall)) as [_ Hb].
    rewrite Hlen in Hb. change (16 ^ Z.of_nat 8) with 4294967296 in Hb.
    exists (digits_value 16 h 0). split; [lia|]. split.
    + apply node_id_to_telegram_id_digits; [exact Hall|].
      destruct h; [discriminate | congruence].
    + rewrite telegram_id_to_node_id_nonneg by lia.
      change (lit "!" ++ ?s) with (33%N :: s). do 2 f_equal.
      apply (digits_value_inj 16); try lia.
      * rewrite format_08x_length by lia. now symmetry.
      * apply format_08x_lower; lia.
      * exact Hall.
      * apply format_08x_value; lia.
Qed.

Lemma codec_round_trip_witness :
  (exists n, telegram_id_to_node_id (str_of_int 2183355078) = Returned n /\
             canonical n = true /\
             node_id_to_telegram_id n = Returned (str_of_int 2183355078)) /\
  (exists x, 0 <= x <= 4294967295 /\
             node_id_to_telegram_id (lit "!82235ac6") = Returned (str_of_int x) /\
             telegram_id_to_node_id (str_of_int x) = Returned (lit "!82235ac6")).
Proof.
  split.
  - apply (proj1 codec_round_trip 2183355078). lia.
  - apply (proj2 codec_round_trip (lit "!82235ac6")). reflexivity.
Defined.

(** A number of at least [16 ^ 8] has more than eight hex digits. *)
Lemma digits_16_long x : 4294967295 < x -> (9 <= length (digits 16 x))%nat.
Proof.
  intros Hx.
  destruct (digits_spec 16 ltac:(lia) ltac:(lia) x ltac:(lia))
    as (_ & Hall & Hv).
  destruct (digits_value_bound 16 ltac:(lia) ltac:(lia) (digits 16 x)
              (forallb_is_digit_lower _ _ Hall)) as [_ Hb].
  rewrite Hv in Hb.
  destruct (Nat.le_gt_cases 9 (length (digits 16 x))) as [H|H]; [exact H|].
  exfalso.
  assert (16 ^ Z.of_nat (length (digits 16 x)) <= 16 ^ 8)
    by (apply Z.pow_le_mono_r; lia).
  change (16 ^ 8) with 4294967296 in *. lia.
Qed.

(** C6, as the code has it. [telegram_id_to_node_id] has no range check:
    4294967296, the first value above 0xFFFFFFFF, is converted to the
    nine-digit id [!100000000] and nothing is raised. *)
Lemma telegram_id_to_node_id_above_range :
  str_of_int 4294967296 = lit "4294967296" /\
  telegram_id_to_node_id (lit "4294967296") = Returned (lit "!100000000").
Proof. split; vm_compute; reflexivity. Qed.

(** A positive number is printed without a zero in front. *)
Lemma digits_16_head x : 4294967295 < x -> hd 48%N (digits 16 x) <> 48%N.
Proof.
  intros Hx Hhd.
  pose proof (digits_16_long x Hx) as Hl.
  destruct (digits_spec 16 ltac:(lia) ltac:(lia) x ltac:(lia))
    as (_ & Hall & Hv).
  destruct (digits 16 x) as [|c r] eqn:E; [simpl in Hl; lia|].
  simpl in Hhd. subst c.
  cbn [forallb] in Hall. apply andb_prop in Hall as [_ Hr].
  destruct (digits_value_bound 16 ltac:(lia) ltac:(lia) r
              (forallb_is_digit_lower _ _ Hr)) as [_ Hb].
  change (digits_value 16 (48%N :: r) 0) with (digits_value 16 r 0) in Hv.
  rewrite Hv in Hb.
  simpl in Hl.
  pose proof (digits_length_le 16 ltac:(lia) x (length r) ltac:(lia) Hb) as Hle.
  rewrite E in Hle. simpl in Hle. lia.
Qed.

(** C6, amended. [telegram_id_to_node_id] has no range check and no
    error of its own for large values. For every integer [x] above
    0xFFFFFFFF whose decimal text has at most 640 digits (a length that no
    setting of the interpreter's limit on decimal texts refuses), the
    conversion of that text returns the marker followed by the lowercase
    hex digits that denote [x], not padded: nine digits or more. *)
Theorem telegram_id_to_node_id_wide x :
  4294967295 < x < 10 ^ 640 ->
  exists h,
    telegram_id_to_node_id (str_of_int x) = Returned (lit "!" ++ h) /\
    forallb (is_lower_digit 16) h = true /\
    digits_value 16 h 0 = x /\
    (9 <= length h)%nat /\
    hd 48%N h <> 48%N.
Proof.
  intros [Hx _]. pose proof (digits_16_long x Hx) as Hl.
  destruct (digits_spec 16 ltac:(lia) ltac:(lia) x ltac:(lia))
    as (_ & Hall & Hv).
  exists (digits 16 x). split; [|repeat split; auto using digits_16_head].
  rewrite telegram_id_to_node_id_nonneg, format_08x_nonneg by lia.
  replace (8 - length (digits 16 x))%nat with 0%nat by lia.
  reflexivity.
Qed.

Lemma telegram_id_to_node_id_wide_witness :
  exists h,
    telegram_id_to_node_id (str_of_int 4294967296) = Returned (lit "!" ++ h) /\
    forallb (is_lower_digit 16) h = true /\
    digits_value 16 h 0 = 4294967296 /\
    (9 <= length h)%nat /\
    hd 48%N h <> 48%N.
Proof.
  apply (telegram_id_to_node_id_wide 4294967296).
  split; [lia | reflexivity].
Defined.

(* ================================================================== *)
(** * Mesh to chat *)
(* ================================================================== *)

Lemma broadcast_id_value : MESHTASTIC_BROADCAST_ID = 4294967295.
Proof. reflexivity. Qed.

Lemma broadcast_id_source :
  int_of_str 16 (lit "ffffffff") = Returned MESHTASTIC_BROADCAST_ID.
Proof. reflexivity. Qed.

Lemma chat_calls_send_to_telegram gid bot message :
  chat_calls (trace (send_to_telegram gid bot message)) = [(gid, message)].
Proof.
  unfold send_to_telegram, send_message, try_except.
  destruct (bot gid message) as [[]|e]; [reflexivity|].
  destruct (is_exception e); reflexivity.
Qed.

Section MeshToChat.

Variable ALLOWED_NODES : dict str.
Variable TELEGRAM_GROUP_ID : Z.
Variable bot : Z -> str -> outcome unit.
Variable main_loop : loop_state.

Let receive :=
  on_meshtastic_receive ALLOWED_NODES TELEGRAM_GROUP_ID bot main_loop.
Let reverse_view := NODE_ID_TO_NAME ALLOWED_NODES.

(** A sender without entry in the reverse view is dropped at once. *)
Lemma receive_unlisted p :
  contains_opt reverse_view (fromId p) = false -> receive p = ret tt.
Proof.
  intros H. unfold receive, on_meshtastic_receive.
  fold reverse_view. now rewrite H.
Qed.

(** What the callback does for a listed sender and a destination that is
    not the broadcast id: it depends on the stripped text only. *)
Lemma receive_listed p sender nickname :
  fromId p = Some sender ->
  dict_get reverse_view sender = Some nickname ->
  opt_int_eqb (to p) MESHTASTIC_BROADCAST_ID = false ->
  forall raw,
  match decoded p with
  | Some d => match payload d with Some b => b | None => [] end
  | None => []
  end = raw ->
  receive p =
  if is_empty (strip (decode_ignore raw)) then ret tt
  else run_coroutine_threadsafe main_loop
         (send_to_telegram TELEGRAM_GROUP_ID bot
            (lit "[" ++ nickname ++ lit "] " ++ strip (decode_ignore raw))).
Proof.
  intros Hf Hn Ht raw Hraw. unfold receive, on_meshtastic_receive.
  fold reverse_view. rewrite Hf, Ht. unfold contains_opt, dict_contains.
  rewrite Hn. cbn [negb].
  assert (E : match payload match decoded p with
                              | Some d => d
                              | None => {| payload := None |}
                              end with
              | Some b => b
              | None => []
              end = raw).
  { rewrite <- Hraw. destruct (decoded p); reflexivity. }
  rewrite E. unfold get_or_self. rewrite Hn. reflexivity.
Qed.

End MeshToChat.

(** C1. A mesh event whose sender identifier has no entry in the reverse
    whitelist view (a packet without sender included) produces no outbound
    chat call: the callback returns at once with no effect, whatever the
    destination and the payload are. *)
Theorem unlisted_sender_dropped
    (ALLOWED_NODES : dict str) (gid : Z) (bot : Z -> str -> outcome unit)
    (main_loop : loop_state) (p : packet) :
  (forall sender, fromId p = Some sender ->
                  dict_get (NODE_ID_TO_NAME ALLOWED_NODES) sender = None) ->
  on_meshtastic_receive ALLOWED_NODES gid bot main_loop p = ret tt /\
  chat_calls
    (trace (on_meshtastic_receive ALLOWED_NODES gid bot main_loop p)) = [].
Proof.
  intros H.
  assert (E : on_meshtastic_receive ALLOWED_NODES gid bot main_loop p
              = ret tt).
  { apply receive_unlisted. unfold contains_opt, dict_contains.
    destruct (fromId p) as [s|]; [|reflexivity].
    now rewrite (H s eq_refl). }
  now rewrite E.
Qed.

Lemma unlisted_sender_dropped_witness :
  on_meshtastic_receive whitelist 7 always_ok LoopOpen
    (text_packet "!0badcafe" (Some 1) "hello") = ret tt /\
  chat_calls (trace (on_meshtastic_receive whitelist 7 always_ok LoopOpen
                       (text_packet "!0badcafe" (Some 1) "hello"))) = [].
Proof.
  apply (unlisted_sender_dropped whitelist 7 always_ok LoopOpen
           (text_packet "!0badcafe" (Some 1) "hello")).
  intros sender E. injection E as <-. reflexivity.
Defined.

(** C2. A mesh event addressed to the broadcast id 4294967295 produces no
    outbound chat call, whoever sent it. *)
Theorem broadcast_dropped
    (ALLOWED_NODES : dict str) (gid : Z) (bot : Z -> str -> outcome unit)
    (main_loop : loop_state) (p : packet) :
  to p = Some 4294967295 ->
  on_meshtastic_receive ALLOWED_NODES gid bot main_loop p = ret tt /\
  chat_calls
    (trace (on_meshtastic_receive ALLOWED_NODES gid bot main_loop p)) = [].
Proof.
  intros H.
  assert (E : on_meshtastic_receive ALLOWED_NODES gid bot main_loop p
              = ret tt).
  { unfold on_meshtastic_receive. rewrite H.
    destruct (negb _); reflexivity. }
  now rewrite E.
Qed.

Lemma broadcast_dropped_witness :
  dict_get (NODE_ID_TO_NAME whitelist) (lit "!deadbeef") = Some (lit "MSH1") /\
  on_meshtastic_receive whitelist 7 always_ok LoopOpen
    (text_packet "!deadbeef" (Some 4294967295) "hello") = ret tt /\
  chat_calls (trace (on_meshtastic_receive whitelist 7 always_ok LoopOpen
                       (text_packet "!deadbeef" (Some 4294967295) "hello")))
    = [].
Proof.
  split; [reflexivity|].
  apply (broadcast_dropped whitelist 7 always_ok LoopOpen
           (text_packet "!deadbeef" (Some 4294967295) "hello")).
  reflexivity.
Defined.

Lemma lstrip_skip pre r :
  forallb isspace pre = true -> lstrip (pre ++ r) = lstrip r.
Proof.
  induction pre as [|c pre IH]; simpl; [reflexivity|].
  intros H. apply andb_prop in H as [-> H]. now apply IH.
Qed.

Lemma lstrip_keep s : isspace (hd 32%N s) = false -> lstrip s = s.
Proof. destruct s as [|c s]; simpl; [reflexivity | now intros ->]. Qed.

Lemma hd_rev_last (s : str) d : hd d (rev s) = last s d.
Proof.
  induction s as [|x s _] using rev_ind; [reflexivity|].
  now rewrite rev_app_distr, last_last.
Qed.

Lemma forallb_rev {A} (f : A -> bool) l :
  forallb f l = true -> forallb f (rev l) = true.
Proof.
  rewrite !forallb_forall. intros H x Hx. apply H. now apply in_rev.
Qed.

(** Stripping removes the whitespace around a text that neither starts
    nor ends with whitespace, and nothing else. *)
Lemma strip_frame pre text post :
  forallb isspace pre = true -> forallb isspace post = true ->
  isspace (hd 32%N text) = false -> isspace (last text 32%N) = false ->
  strip (pre ++ text ++ post) = text.
Proof.
  intros Hpre Hpost Hh Hl. unfold strip, rstrip.
  rewrite (lstrip_skip pre _ Hpre).
  assert (Hne : text <> []) by (intros ->; discriminate).
  assert (E : lstrip (text ++ post) = text ++ post)
    by (apply lstrip_keep; destruct text; [congruence | exact Hh]).
  rewrite E, rev_app_distr.
  rewrite (lstrip_skip (rev post)) by now apply forallb_rev.
  rewrite (lstrip_keep (rev text)) by now rewrite hd_rev_last.
  apply rev_involutive.
Qed.

(** C8. With the main loop open, a mesh event from a whitelisted sender
    with nickname [nickname], a destination other than the broadcast id
    and a payload that decodes to a text surrounded by whitespace only
    produces exactly one outbound chat call, to the configured group,
    with body ["[" + nickname + "] " + text], the whitespace around the
    text removed. For the sender nicknamed MSH1 and the payload [hello]
    the body is ["[MSH1] hello"]. *)
Theorem listed_sender_relayed
    (ALLOWED_NODES : dict str) (gid : Z) (bot : Z -> str -> outcome unit)
    (main_loop : loop_state) (p : packet) (sender nickname : str)
    (raw : bytes) (pre text post : str) :
  main_loop = LoopOpen ->
  fromId p = Some sender ->
  dict_get (NODE_ID_TO_NAME ALLOWED_NODES) sender = Some nickname ->
  to p <> Some MESHTASTIC_BROADCAST_ID ->
  decoded p = Some {| payload := Some raw |} ->
  decode_ignore raw = pre ++ text ++ post ->
  forallb isspace pre = true ->
  forallb isspace post = true ->
  isspace (hd 32%N text) = false ->
  isspace (last text 32%N) = false ->
  chat_calls
    (trace (on_meshtastic_receive ALLOWED_NODES gid bot main_loop p)) =
  [(gid, lit "[" ++ nickname ++ lit "] " ++ text)].
Proof.
  intros -> Hf Hn Ht Hd Hraw Hpre Hpost Hh Hl.
  rewrite (receive_listed ALLOWED_NODES gid bot LoopOpen p sender nickname
             Hf Hn)
    with (raw := raw).
  - rewrite Hraw, (strip_frame pre text post Hpre Hpost Hh Hl).
    destruct text as [|c text]; [discriminate|].
    cbn [is_empty]. unfold run_coroutine_threadsafe.
    apply chat_calls_send_to_telegram.
  - unfold opt_int_eqb. destruct (to p) as [z|]; [|reflexivity].
    apply Z.eqb_neq. congruence.
  - now rewrite Hd.
Qed.

Lemma listed_sender_relayed_witness :
  chat_calls (trace (on_meshtastic_receive whitelist 7 always_ok LoopOpen
                       (text_packet "!deadbeef" (Some 1) "hello"))) =
    [(7, lit "[MSH1] hello")] /\
  chat_calls
    (trace (on_meshtastic_receive whitelist 7 always_ok LoopOpen
              {| fromId := Some (lit "!deadbeef"); to := Some 1;
                 decoded := Some {| payload :=
                   Some [x20; x09; x68; x65; x6c; x6c; xc3; xb6;
                         x20; xff; x0a] |} |})) =
    [(7, lit "[MSH1] hell" ++ [246%N])].
Proof.
  split.
  - apply (listed_sender_relayed whitelist 7 always_ok LoopOpen
             (text_packet "!deadbeef" (Some 1) "hello")
             (lit "!deadbeef") (lit "MSH1") (blit "hello")
             [] (lit "hello") []); try reflexivity; discriminate.
  - apply (listed_sender_relayed whitelist 7 always_ok LoopOpen _
             (lit "!deadbeef") (lit "MSH1")
             [x20; x09; x68; x65; x6c; x6c; xc3; xb6; x20; xff; x0a]
             [32%N; 9%N] (lit "hell" ++ [246%N]) [32%N; 10%N]);
      try reflexivity; discriminate.
Defined.

(** C10. The callback copes with packets that lack fields: a packet
    without destination is handled exactly like one addressed to any node
    other than the broadcast id, so it is not taken for a broadcast and
    the missing field raises nothing of its own; a packet without decoded
    part, or without payload in it, is taken as empty text and dropped:
    the callback returns with no effect. *)
Theorem missing_fields_handled
    (ALLOWED_NODES : dict str) (gid : Z) (bot : Z -> str -> outcome unit)
    (main_loop : loop_state) (p : packet) :
  (to p = None ->
   forall z, z <> MESHTASTIC_BROADCAST_ID ->
   on_meshtastic_receive ALLOWED_NODES gid bot main_loop p =
   on_meshtastic_receive ALLOWED_NODES gid bot main_loop
     {| fromId := fromId p; to := Some z; decoded := decoded p |}) /\
  (decoded p = None \/ decoded p = Some {| payload := None |} ->
   on_meshtastic_receive ALLOWED_NODES gid bot main_loop p = ret tt).
Proof.
  split.
  - intros Ht z Hz. unfold on_meshtastic_receive. rewrite Ht. simpl.
    destruct (Z.eqb_spec z MESHTASTIC_BROADCAST_ID); [congruence|].
    reflexivity.
  - intros Hd. unfold on_meshtastic_receive.
    destruct (negb _); [reflexivity|].
    destruct (opt_int_eqb _ _); [reflexivity|].
    destruct Hd as [-> | ->]; reflexivity.
Qed.

Lemma missing_fields_handled_witness :
  (on_meshtastic_receive whitelist 7 always_ok LoopOpen
     (text_packet "!deadbeef" None "hello") =
   on_meshtastic_receive whitelist 7 always_ok LoopOpen
     (text_packet "!deadbeef" (Some 1) "hello")) /\
  chat_calls (trace (on_meshtastic_receive whitelist 7 always_ok LoopOpen
                       (text_packet "!deadbeef" None "hello"))) =
    [(7, lit "[MSH1] hello")] /\
  on_meshtastic_receive whitelist 7 always_ok LoopOpen
    {| fromId := Some (lit "!deadbeef"); to := Some 1; decoded := None |}
    = ret tt /\
  on_meshtastic_receive whitelist 7 always_ok LoopUnset
    {| fromId := Some (lit "!deadbeef"); to := Some 1;
       decoded := Some {| payload := None |} |} = ret tt.
Proof.
  split; [|split; [|split]].
  - apply (proj1 (missing_fields_handled whitelist 7 always_ok LoopOpen
                    (text_packet "!deadbeef" None "hello"))).
    + reflexivity.
    + discriminate.
  - reflexivity.
  - apply (proj2 (missing_fields_handled whitelist 7 always_ok LoopOpen _)).
    left; reflexivity.
  - apply (proj2 (missing_fields_handled whitelist 7 always_ok LoopUnset _)).
    right; reflexivity.
Defined.

Lemma dict_set_values {V} (d : dict V) k v x :
  In x (dict_values (dict_set d k v)) -> In x (dict_values d) \/ x = v.
Proof.
  unfold dict_values.
  induction d as [|[k0 v0] d IH]; simpl.
  - intros [E|[]]; now right.
  - destruct (str_eqb k0 k); simpl.
    + intros [E|H]; [now right | left; now right].
    + intros [E|H]; [left; now left|].
      destruct (IH H) as [H'|H']; [left; now right | now right].
Qed.

(** The values of a dict display are values written in the display. *)
Lemma dict_of_items_values {V} (items : list (str * V)) x :
  In x (dict_values (dict_of_items items)) -> In x (map snd items).
Proof.
  unfold dict_of_items.
  assert (G : forall d,
    In x (dict_values
            (fold_left (fun d kv => dict_set d (fst kv) (snd kv)) items d)) ->
    In x (dict_values d) \/ In x (map snd items)).
  { induction items as [|[k v] items IH]; intros d; simpl; [now left|].
    intros H. destruct (IH _ H) as [H'|H']; [|right; now right].
    apply dict_set_values in H' as [H'| ->]; [now left | right; now left]. }
  intros H. destruct (G [] H) as [[]|H']; exact H'.
Qed.

(** C9, as the code has it. Identifiers are compared as written: the
    sender [!DEADBEEF] differs from the whitelisted [!deadbeef] only in
    the case of its hex digits, and its message is dropped, while the same
    message from [!deadbeef] is relayed. *)
Lemma uppercase_sender_dropped :
  lower (lit "!DEADBEEF") = lit "!deadbeef" /\
  In (lit "!deadbeef") (dict_values whitelist) /\
  chat_calls (trace (on_meshtastic_receive whitelist 7 always_ok LoopOpen
                       (text_packet "!DEADBEEF" (Some 1) "hello"))) = [] /\
  chat_calls (trace (on_meshtastic_receive whitelist 7 always_ok LoopOpen
                       (text_packet "!deadbeef" (Some 1) "hello"))) =
    [(7, lit "[MSH1] hello")].
Proof. repeat split; vm_compute; auto. Qed.

(** C9, amended. NodeIdentifiers are stored as they are written in the
    whitelist and compared code point by code point, with no change of
    case: the values of the whitelist are values of its display; the
    reverse lookup finds a sender exactly when its identifier is equal to a
    stored one; and a sender whose identifier is not equal to any stored
    one is dropped, also when it differs from one only in case. *)
Theorem sender_lookup_exact
    (display : list (str * str)) (gid : Z) (bot : Z -> str -> outcome unit)
    (main_loop : loop_state) (sender : str) :
  let ALLOWED_NODES := dict_of_items display in
  (forall id, In id (dict_values ALLOWED_NODES) -> In id (map snd display)) /\
  (dict_contains (NODE_ID_TO_NAME ALLOWED_NODES) sender = true <->
   In sender (dict_values ALLOWED_NODES)) /\
  (forall p, fromId p = Some sender ->
             ~ In sender (dict_values ALLOWED_NODES) ->
             on_meshtastic_receive ALLOWED_NODES gid bot main_loop p
             = ret tt).
Proof.
  intros ALLOWED_NODES. split; [|split].
  - intros id. apply dict_of_items_values.
  - apply invert_contains.
  - intros p Hf Hn. apply receive_unlisted. rewrite Hf. simpl.
    destruct (dict_contains _ sender) eqn:E; [|reflexivity].
    exfalso. apply Hn. now apply invert_contains.
Qed.

Lemma sender_lookup_exact_witness :
  on_meshtastic_receive whitelist 7 always_ok LoopOpen
    (text_packet "!DEADBEEF" (Some 1) "hello") = ret tt.
Proof.
  apply (proj2 (proj2 (sender_lookup_exact
                  [ (lit "MSH1", lit "!deadbeef");
                    (lit "MSH2", lit "!42babe42") ]
                  7 always_ok LoopOpen (lit "!DEADBEEF")))).
  - reflexivity.
  - vm_compute. intros [H|[H|[]]]; discriminate.
Defined.

(* ================================================================== *)
(** * Chat to mesh *)
(* ================================================================== *)

Lemma split_first sep s :
  nth 0 (split sep s) [] = up_to (fun c => (c =? sep)%N) s.
Proof.
  induction s as [|c s IH]; simpl; [reflexivity|].
  destruct (c =? sep)%N; [reflexivity|].
  destruct (split sep s) as [|p ps]; simpl in *; now rewrite <- IH.
Qed.

Lemma skipn_up_to stop s :
  skipn (length (up_to stop s) + 1) s = after stop s.
Proof.
  induction s as [|c s IH]; simpl; [reflexivity|].
  destruct (stop c); simpl; [reflexivity | exact IH].
Qed.

(** The directive of a text that starts with a marker: the target runs to
    the first space, the body is what follows that space. *)
Lemma directive_marker m s :
  directive (m :: s) = (up_to is_space_char s, after is_space_char s).
Proof.
  unfold directive, slice_from. change (skipn 1 (m :: s)) with s.
  rewrite split_first.
  change (fun c : N => (c =? 32)%N) with is_space_char. f_equal.
  replace (length (up_to is_space_char s) + 2)%nat
    with (S (length (up_to is_space_char s) + 1)) by lia.
  apply skipn_up_to.
Qed.

Lemma up_to_no_stop stop s c : In c (up_to stop s) -> stop c = false.
Proof.
  induction s as [|x s IH]; simpl; [tauto|].
  destruct (stop x) eqn:E; simpl; [tauto|].
  intros [<-|H]; [exact E | now apply IH].
Qed.

(** A string is its part up to the first stop, then either nothing or the
    stop followed by the part after it. *)
Lemma up_to_after stop s :
  s = up_to stop s \/
  exists c, stop c = true /\ s = up_to stop s ++ c :: after stop s.
Proof.
  induction s as [|x s IH]; simpl; [now left|].
  destruct (stop x) eqn:E.
  - right. now exists x.
  - destruct IH as [IH|(c & Hc & IH)].
    + left. now f_equal.
    + right. exists c. split; [exact Hc|]. simpl. now f_equal.
Qed.

Lemma after_nil_of_up_to stop s : s = up_to stop s -> after stop s = [].
Proof.
  induction s as [|x s IH]; simpl; [reflexivity|].
  destruct (stop x); [discriminate|].
  intros E. injection E as E. now apply IH.
Qed.

Section ChatToMesh.

Variable ALLOWED_NODES : dict str.
Variable TELEGRAM_GROUP_ID : Z.
Variable iface : str -> str -> outcome unit.

Let handle := telegram_to_mesh ALLOWED_NODES TELEGRAM_GROUP_ID iface.

(** The handler on a directive from the configured group. *)
Lemma handle_directive u raw s :
  effective_chat_id u = TELEGRAM_GROUP_ID ->
  message_text u = Some raw ->
  strip raw = 64%N :: s ->
  handle u =
  let target_name := up_to is_space_char s in
  let message_body := after is_space_char s in
  if is_empty message_body then ret tt
  else if str_eqb (lower target_name) (lit "all") then
    for_each (dict_values ALLOWED_NODES)
             (fun node_id => sendText iface message_body node_id)
  else if dict_contains ALLOWED_NODES target_name then
    match dict_get ALLOWED_NODES target_name with
    | Some node_id => sendText iface message_body node_id
    | None => ([], Raised KeyError)
    end
  else ret tt.
Proof.
  intros Hc Hm Ht. unfold handle, telegram_to_mesh.
  rewrite Hc, Z.eqb_refl, Hm, Ht. cbn [negb is_empty orb].
  change (startswith (64%N :: s) (lit "@")) with true. cbn [negb].
  rewrite directive_marker. reflexivity.
Qed.

End ChatToMesh.

(** C3, as the code has it. With the whitelist of main.py (two registered
    identifiers) and a mesh transport that fails for [!deadbeef] only, the
    message ["@all ping"] leads to one send, the failing one: the loop is
    left by the exception and [!42babe42] is never sent to. *)
Lemma fan_out_stops_at_failure :
  let u := {| effective_chat_id := 7;
              message_text := Some (lit "@all ping") |} in
  let m := telegram_to_mesh whitelist 7 (fails_for (lit "!deadbeef")) u in
  dict_values whitelist = [lit "!deadbeef"; lit "!42babe42"] /\
  fails_for (lit "!deadbeef") (lit "ping") (lit "!42babe42") = Returned tt /\
  mesh_sends (trace m) = [(lit "ping", lit "!deadbeef")] /\
  result m = Raised TransportError.
Proof. repeat split. Qed.

(** C3, amended. For the chat message ["@all ping"] from the configured
    group and a whitelist with two registered identifiers, the handler
    sends ["ping"] to the identifiers in the order of the whitelist and
    stops at the first send that fails: when the first send succeeds there
    are exactly two sends, one per identifier, and the handler ends as the
    second send does; when the first send fails there is that one send
    only and its exception leaves the handler. *)
Theorem fan_out_in_order
    (ALLOWED_NODES : dict str) (gid : Z) (iface : str -> str -> outcome unit)
    (u : update) (id1 id2 : str) :
  dict_values ALLOWED_NODES = [id1; id2] ->
  effective_chat_id u = gid ->
  message_text u = Some (lit "@all ping") ->
  (iface (lit "ping") id1 = Returned tt ->
   telegram_to_mesh ALLOWED_NODES gid iface u =
   ([SendText (lit "ping") id1; SendText (lit "ping") id2],
    iface (lit "ping") id2)) /\
  (forall e, iface (lit "ping") id1 = Raised e ->
   telegram_to_mesh ALLOWED_NODES gid iface u =
   ([SendText (lit "ping") id1], Raised e)).
Proof.
  intros Hv Hc Hm.
  rewrite (handle_directive ALLOWED_NODES gid iface u (lit "@all ping")
             (lit "all ping") Hc Hm eq_refl).
  cbv zeta.
  change (after is_space_char (lit "all ping")) with (lit "ping").
  change (up_to is_space_char (lit "all ping")) with (lit "all").
  change (is_empty (lit "ping")) with false.
  change (str_eqb (lower (lit "all")) (lit "all")) with true.
  cbv iota. rewrite Hv. cbn [for_each]. unfold sendText, bind, ret.
  split.
  - intros ->. destruct (iface (lit "ping") id2) as [[]|e]; reflexivity.
  - intros e ->. reflexivity.
Qed.

Lemma fan_out_in_order_witness :
  telegram_to_mesh whitelist 7 always_ok
    {| effective_chat_id := 7; message_text := Some (lit "@all ping") |} =
  ([SendText (lit "ping") (lit "!deadbeef");
    SendText (lit "ping") (lit "!42babe42")], Returned tt).
Proof.
  apply (proj1 (fan_out_in_order whitelist 7 always_ok
                  {| effective_chat_id := 7;
                     message_text := Some (lit "@all ping") |}
                  (lit "!deadbeef") (lit "!42babe42")
                  eq_refl eq_refl eq_refl)).
  reflexivity.
Defined.

(** C7, as the code has it. The target token ends at a space only. In
    ["@MSH1<TAB>hello"] the first whitespace is a tab: by the words of the
    specification the target is [MSH1] and the body [hello]; the code
    takes the whole rest as the target, finds no body and sends nothing. *)
Lemma tab_does_not_end_target :
  let text := lit "@MSH1" ++ [9%N] ++ lit "hello" in
  strip text = text /\
  startswith text (lit "@") = true /\
  spec_target_token text = lit "MSH1" /\
  spec_message_body text = lit "hello" /\
  directive text = (lit "MSH1" ++ [9%N] ++ lit "hello", []) /\
  directive text <> (spec_target_token text, spec_message_body text) /\
  dict_get whitelist (lit "MSH1") = Some (lit "!deadbeef") /\
  telegram_to_mesh whitelist 7 always_ok
    {| effective_chat_id := 7; message_text := Some text |} = ret tt.
Proof. repeat split. vm_compute. discriminate. Qed.

(** C7, amended. For every chat text from the configured group that,
    stripped, starts with the marker [@]: the target token is the part
    after the marker up to, not including, the first space character
    (U+0020; no other whitespace ends it); the body is everything after
    that space; and the message is dropped with no send when no body
    remains, or when the target token is empty and the empty string is not
    a whitelisted nickname. *)
Theorem directive_parsing
    (ALLOWED_NODES : dict str) (gid : Z) (iface : str -> str -> outcome unit)
    (u : update) (raw s : str) :
  effective_chat_id u = gid ->
  message_text u = Some raw ->
  strip raw = lit "@" ++ s ->
  let target := fst (directive (lit "@" ++ s)) in
  let body := snd (directive (lit "@" ++ s)) in
  (forall c, In c target -> c <> 32%N) /\
  (s = target /\ body = [] \/ s = target ++ lit " " ++ body) /\
  (body = [] -> telegram_to_mesh ALLOWED_NODES gid iface u = ret tt) /\
  (target = [] -> dict_contains ALLOWED_NODES [] = false ->
   telegram_to_mesh ALLOWED_NODES gid iface u = ret tt).
Proof.
  intros Hc Hm Ht. change (lit "@" ++ s) with (64%N :: s) in *.
  rewrite directive_marker. cbn [fst snd]. cbv zeta.
  rewrite (handle_directive ALLOWED_NODES gid iface u raw s Hc Hm Ht).
  cbv zeta.
  split; [|split; [|split]].
  - intros c Hin%up_to_no_stop E. subst c. discriminate.
  - destruct (up_to_after is_space_char s) as [E|(c & Hcs & E)].
    + left. split; [exact E | now apply after_nil_of_up_to].
    + right. apply N.eqb_eq in Hcs. subst c. exact E.
  - intros ->. reflexivity.
  - intros -> Hn. destruct (is_empty _); [reflexivity|].
    change (str_eqb (lower []) (lit "all")) with false. cbv iota.
    now rewrite Hn.
Qed.

Lemma directive_parsing_witness :
  directive (lit "@MSH2 status?") = (lit "MSH2", lit "status?") /\
  telegram_to_mesh whitelist 7 always_ok
    {| effective_chat_id := 7; message_text := Some (lit "@MSH2") |}
    = ret tt /\
  telegram_to_mesh whitelist 7 always_ok
    {| effective_chat_id := 7; message_text := Some (lit "@ hello") |}
    = ret tt.
Proof.
  split; [reflexivity|]. split.
  - apply (proj1 (proj2 (proj2
             (directive_parsing whitelist 7 always_ok
                {| effective_chat_id := 7;
                   message_text := Some (lit "@MSH2") |}
                (lit "@MSH2") (lit "MSH2") eq_refl eq_refl eq_refl)))).
    reflexivity.
  - apply (proj2 (proj2 (proj2
             (directive_parsing whitelist 7 always_ok
                {| effective_chat_id := 7;
                   message_text := Some (lit "@ hello") |}
                (lit "@ hello") (lit " hello")
                eq_refl eq_refl eq_refl)))); reflexivity.
Defined.

(* ================================================================== *)
(** * The whitelist registry *)
(* ================================================================== *)

(** C4, as the code has it. The dictionaries are built without any check.
    Two nicknames with one identifier: construction returns, and the
    reverse view keeps the later nickname. One nickname written twice:
    construction returns, and the later identifier replaces the earlier
    one. Lookups work on both results. *)
Lemma duplicates_accepted :
  build_registry [ (lit "A", lit "!deadbeef"); (lit "B", lit "!deadbeef") ] =
    Returned ([ (lit "A", lit "!deadbeef"); (lit "B", lit "!deadbeef") ],
              [ (lit "!deadbeef", lit "B") ]) /\
  dict_get (invert (dict_of_items
                      [ (lit "A", lit "!deadbeef"); (lit "B", lit "!deadbeef") ]))
           (lit "!deadbeef") = Some (lit "B") /\
  build_registry [ (lit "A", lit "!deadbeef"); (lit "A", lit "!42babe42") ] =
    Returned ([ (lit "A", lit "!42babe42") ],
              [ (lit "!42babe42", lit "A") ]).
Proof. repeat split. Qed.

(** C4, amended. Construction of the registry from a display of
    nickname: identifier items never fails and reports no duplicate. It
    returns two dictionaries without repeated keys: in the forward view a
    nickname written more than once keeps the identifier written last; in
    the reverse view an identifier shared by several nicknames keeps the
    nickname that comes last in the forward view. *)
Theorem registry_construction (display : list (str * str)) :
  exists forward reverse,
    build_registry display = Returned (forward, reverse) /\
    NoDup (dict_keys forward) /\
    NoDup (dict_keys reverse) /\
    (forall name, dict_get forward name = dict_get (rev display) name) /\
    (forall id, dict_get reverse id =
                dict_get (rev (map (fun kv => (snd kv, fst kv)) forward)) id).
Proof.
  exists (dict_of_items display), (invert (dict_of_items display)).
  split; [reflexivity|].
  split; [apply dict_of_items_NoDup|].
  split; [apply dict_of_items_NoDup|].
  split; intros k; apply dict_of_items_get.
Qed.


(* ================================================================== *)
(** * More on reading integers *)
(* ================================================================== *)

Lemma int_of_ascii_after_sign base s :
  int_of_ascii base s =
  match skip_space s with
  | c :: r => if (c =? 43)%N then after_sign base false r
              else if (c =? 45)%N then after_sign base true r
              else after_sign base false (c :: r)
  | [] => after_sign base false []
  end.
Proof.
  unfold int_of_ascii. destruct (skip_space s) as [|c r]; [reflexivity|].
  destruct (c =? 43)%N; [reflexivity|].
  destruct (c =? 45)%N; reflexivity.
Qed.

(** On a non-empty string of digits the part after the sign reads all. *)
Lemma after_sign_digits base neg s :
  forallb (is_digit base) s = true -> s <> [] ->
  after_sign base neg s =
  Returned (if neg then - digits_value base s 0 else digits_value base s 0).
Proof.
  intros Hall Hne. destruct s as [|c0 s]; [congruence|].
  pose proof Hall as Hall'.
  simpl in Hall. apply andb_prop in Hall as [Hc0 Hs].
  destruct (is_digit_plain _ _ Hc0) as (_ & _ & _ & Hus).
  unfold after_sign.
  assert (Hprefix :
    match s with
    | c1 :: r =>
        (base =? 16) && (c0 =? 48)%N && ((c1 =? 120) || (c1 =? 88))%N
    | [] => false
    end = false).
  { destruct s as [|c1 r]; [reflexivity|].
    simpl in Hs. apply andb_prop in Hs as [Hc1 _].
    apply is_digit_inv in Hc1 as (d & Hd & Hlt).
    apply digit_value_Some in Hd.
    destruct (N.eqb_spec c1 120), (N.eqb_spec c1 88);
      rewrite ?andb_false_r; try reflexivity; lia. }
  destruct s as [|c1 r].
  - destruct (N.eqb_spec c0 95); [congruence|].
    rewrite (digit_run_digits base [c0] Hall' false 0 0%nat) by now right.
    reflexivity.
  - rewrite Hprefix.
    destruct (N.eqb_spec c0 95); [congruence|].
    rewrite (digit_run_digits base (c0 :: c1 :: r) Hall' false 0 0%nat)
      by now right.
    reflexivity.
Qed.

(** A minus sign in front of a string of digits. *)
Lemma int_of_str_minus base s :
  forallb (is_digit base) s = true -> s <> [] ->
  int_of_str base (45%N :: s) = Returned (- digits_value base s 0).
Proof.
  intros Hall Hne. unfold int_of_str. cbn [map].
  rewrite (to_ascii_digits base s Hall). change (to_ascii 45) with 45%N.
  rewrite int_of_ascii_after_sign.
  change (skip_space (45%N :: s)) with (45%N :: s). cbv beta iota.
  change (45 =? 43)%N with false. change (45 =? 45)%N with true.
  cbv iota. now apply after_sign_digits.
Qed.

(** [int(str(x))] is [x], whatever the sign. *)
Lemma int_of_str_of_int x : int_of_str 10 (str_of_int x) = Returned x.
Proof.
  unfold str_of_int. destruct (Z.ltb_spec x 0).
  - destruct (digits_spec 10 ltac:(lia) ltac:(lia) (- x) ltac:(lia))
      as (Hne & Hall & Hv).
    rewrite int_of_str_minus;
      [| now apply forallb_is_digit_lower | exact Hne].
    rewrite Hv. f_equal; lia.
  - apply int_of_str_of_digits; lia.
Qed.

(** [format(x, "08x")] for a negative [x]: the sign, then zeros up to a
    total width of eight, then the hex digits of [-x]. *)
Lemma format_08x_neg x :
  x < 0 ->
  format_08x x =
  45%N :: repeat 48%N (7 - length (digits 16 (- x))) ++ digits 16 (- x).
Proof.
  intros H. unfold format_08x.
  destruct (Z.ltb_spec x 0); [|lia].
  rewrite Z.abs_neq by lia. reflexivity.
Qed.

(** [int(format(x, "08x"), 16)] is [x], whatever the sign and the size. *)
Lemma int_of_str_format_any x : int_of_str 16 (format_08x x) = Returned x.
Proof.
  destruct (Z.lt_ge_cases x 0) as [Hneg|Hpos].
  - rewrite format_08x_neg by lia.
    destruct (digits_spec 16 ltac:(lia) ltac:(lia) (- x) ltac:(lia))
      as (Hne & Hall & Hv).
    rewrite int_of_str_minus.
    + rewrite digits_value_zeros, Hv. f_equal; lia.
    + apply forallb_is_digit_lower.
      rewrite forallb_app, Hall, zeros_lower by lia. reflexivity.
    + intros E. now apply app_eq_nil in E as [_ E].
  - now apply int_of_str_format.
Qed.

Lemma skip_space_split s :
  exists pre, s = pre ++ skip_space s /\ forallb int_space pre = true.
Proof.
  induction s as [|c s (pre & E & Hp)]; simpl.
  - now exists [].
  - destruct (int_space c) eqn:Hc.
    + exists (c :: pre). simpl. rewrite Hc, Hp. split; [now f_equal | reflexivity].
    + now exists [].
Qed.

(** What the scan has read is underscores and digits; it has counted the
    digits. *)
Lemma digit_run_split base s : forall pu acc cnt v n rest,
  digit_run base s pu acc cnt = Some (v, n, rest) ->
  exists pre, s = pre ++ rest /\
    forallb (fun c => (c =? 95)%N || is_digit base c) pre = true /\
    (cnt <= n)%nat /\
    ((cnt < n)%nat -> existsb (is_digit base) pre = true).
Proof.
  induction s as [|c s IH]; intros pu acc cnt v n rest; simpl.
  - destruct pu; [discriminate|]. intros E. injection E as <- <- <-.
    exists []. repeat split; try reflexivity; lia.
  - assert (Stop : (if pu then None else Some (acc, cnt, c :: s)) =
                   Some (v, n, rest) ->
            exists pre, c :: s = pre ++ rest /\
              forallb (fun c => (c =? 95)%N || is_digit base c) pre = true /\
              (cnt <= n)%nat /\
              ((cnt < n)%nat -> existsb (is_digit base) pre = true)).
    { destruct pu; [discriminate|]. intros E. injection E as <- <- <-.
      exists []. repeat split; try reflexivity; lia. }
    destruct (N.eqb_spec c 95) as [->|Hc].
    + destruct pu; [discriminate|]. intros H.
      apply IH in H as (pre & E & Hall & Hle & Hex).
      exists (95%N :: pre). simpl. rewrite E, Hall.
      repeat split; auto.
    + destruct (digit_value c) as [d|] eqn:Hd; [|exact Stop].
      destruct (Z.ltb_spec d base) as [Hlt|Hge]; [|exact Stop].
      intros H. apply IH in H as (pre & E & Hall & Hle & Hex).
      assert (Hdig : is_digit base c = true).
      { unfold is_digit. rewrite Hd. now apply Z.ltb_lt. }
      exists (c :: pre). simpl. rewrite E, Hall, Hdig, orb_true_r.
      repeat split; auto; lia.
Qed.

Lemma forallb_weaken {A} (f g : A -> bool) l :
  (forall a, f a = true -> g a = true) ->
  forallb f l = true -> forallb g l = true.
Proof.
  intros H. rewrite !forallb_forall. intros Hf a Ha. now apply H, Hf.
Qed.

Lemma after_sign_Returned base neg s z :
  after_sign base neg s = Returned z ->
  forallb (int_char base) s = true /\ existsb (is_digit base) s = true.
Proof.
  assert (Run : forall s3,
    match s3 with
    | [] => Raised ValueError
    | c :: _ =>
        if (c =? 95)%N then Raised ValueError
        else match digit_run base s3 false 0 0 with
             | Some (v, S _, rest) =>
                 if forallb int_space rest
                 then Returned (if neg then - v else v)
                 else Raised ValueError
             | _ => Raised ValueError
             end
    end = Returned z ->
    forallb (int_char base) s3 = true /\ existsb (is_digit base) s3 = true).
  { intros s3 H. destruct s3 as [|c s3]; [discriminate|].
    destruct (c =? 95)%N; [discriminate|].
    destruct (digit_run base (c :: s3) false 0 0) as [[[v n] rest]|] eqn:Hr;
      [|discriminate].
    destruct n as [|n]; [discriminate|].
    destruct (forallb int_space rest) eqn:Hrest; [|discriminate].
    apply digit_run_split in Hr as (pre & E & Hall & _ & Hex).
    rewrite E, forallb_app, existsb_app, (Hex ltac:(lia)). split; [|reflexivity].
    apply andb_true_intro; split.
    - revert Hall. apply forallb_weaken. intros a Ha. unfold int_char.
      apply orb_prop in Ha as [-> | ->]; now rewrite ?orb_true_r.
    - revert Hrest. apply forallb_weaken. intros a Ha. unfold int_char.
      now rewrite Ha. }
  unfold after_sign.
  destruct s as [|c0 [|c1 r]]; [apply (Run []) | apply (Run [c0]) |].
  destruct ((base =? 16) && (c0 =? 48)%N && ((c1 =? 120) || (c1 =? 88))%N)
    eqn:Hp; [|apply (Run (c0 :: c1 :: r))].
  apply andb_prop in Hp as [Hp Hx]. apply andb_prop in Hp as [Hb H0].
  apply N.eqb_eq in H0. subst c0.
  assert (Hhead : forall t,
    forallb (int_char base) t = true /\ existsb (is_digit base) t = true ->
    forallb (int_char base) (48%N :: c1 :: t) = true /\
    existsb (is_digit base) (48%N :: c1 :: t) = true).
  { intros t [Ht1 Ht2]. simpl. rewrite Ht1, Ht2, !orb_true_r.
    split; [|reflexivity].
    unfold int_char at 2. rewrite Hb, Hx. simpl. rewrite orb_true_r.
    apply Z.eqb_eq in Hb. subst base. reflexivity. }
  destruct r as [|u r'].
  - intros H. now apply Hhead, Run.
  - destruct (N.eqb_spec u 95) as [->|Hu]; intros H.
    + apply Run in H as [H1 H2]. apply Hhead. simpl. now split.
    + now apply Hhead, Run.
Qed.

(** A text that [int()] accepts is made of whitespace, signs, underscores,
    digits of the base (and the prefix letter for base 16), and holds at
    least one digit. *)
Lemma int_of_ascii_Returned base s z :
  int_of_ascii base s = Returned z ->
  forallb (int_char base) s = true /\ existsb (is_digit base) s = true.
Proof.
  rewrite int_of_ascii_after_sign.
  destruct (skip_space_split s) as (pre & E & Hpre).
  assert (Hw : forallb (int_char base) pre = true).
  { revert Hpre. apply forallb_weaken. intros a Ha. unfold int_char.
    now rewrite Ha. }
  assert (Glue : forall t,
    skip_space s = t ->
    forallb (int_char base) t = true /\ existsb (is_digit base) t = true ->
    forallb (int_char base) s = true /\ existsb (is_digit base) s = true).
  { intros t Et [H1 H2]. rewrite E, Et, forallb_app, existsb_app, Hw, H1, H2.
    now rewrite orb_true_r. }
  destruct (skip_space s) as [|c r] eqn:Es.
  - intros H. apply after_sign_Returned in H as [_ H]. discriminate.
  - assert (Sign : forall neg, (c = 43 \/ c = 45)%N ->
               after_sign base neg r = Returned z ->
               forallb (int_char base) s = true /\
               existsb (is_digit base) s = true).
    { intros neg Hc H. apply after_sign_Returned in H as [H1 H2].
      apply (Glue (c :: r) eq_refl). simpl. rewrite H1, H2, orb_true_r.
      split; [|reflexivity].
      unfold int_char. destruct Hc as [-> | ->]; simpl;
        now rewrite ?orb_true_r. }
    destruct (N.eqb_spec c 43); [apply Sign; now left|].
    destruct (N.eqb_spec c 45); [apply Sign; now right|].
    intros H. apply (Glue (c :: r) eq_refl).
    now apply after_sign_Returned in H.
Qed.

(** [int()] raises nothing but [ValueError]. *)
Lemma int_of_str_Raised base s e : int_of_str base s = Raised e -> e = ValueError.
Proof.
  unfold int_of_str. generalize (map to_ascii s). clear s. intros s.
  rewrite int_of_ascii_after_sign.
  assert (T : forall neg t, after_sign base neg t = Raised e -> e = ValueError).
  { intros neg t. unfold after_sign.
    match goal with
    | |- match ?s3 with _ => _ end = _ -> _ => destruct s3 as [|c s3']
    end; [congruence|].
    destruct (c =? 95)%N; [congruence|].
    destruct (digit_run base (c :: s3') false 0 0) as [[[v [|n]] rest]|];
      try congruence.
    destruct (forallb int_space rest); congruence. }
  destruct (skip_space s) as [|c r]; [apply T|].
  destruct (c =? 43)%N; [apply T|].
  destruct (c =? 45)%N; apply T.
Qed.

(** Making an ASCII text ASCII changes nothing that [int()] looks at. *)
Lemma to_ascii_class base c :
  (c <? 128)%N = true ->
  int_char base (to_ascii c) = int_char base c /\
  is_digit base (to_ascii c) = is_digit base c.
Proof.
  intros Hc%N.ltb_lt. unfold to_ascii.
  destruct (N.ltb_spec c 127); [now split|].
  assert (c = 127%N) by lia. subst c.
  change (if isspace 127 then 32%N
          else match unicode_decimal 127 with
               | Some d => (48 + d)%N
               | None => 63%N
               end) with 63%N.
  unfold int_char, is_digit. simpl. now rewrite !andb_false_r.
Qed.

Lemma to_ascii_classes base s :
  forallb (fun c => (c <? 128)%N) s = true ->
  forallb (int_char base) (map to_ascii s) = forallb (int_char base) s /\
  existsb (is_digit base) (map to_ascii s) = existsb (is_digit base) s.
Proof.
  induction s as [|c s IH]; [now split|].
  intros H. simpl in H. apply andb_prop in H as [Hc Hs].
  destruct (IH Hs) as [IH1 IH2].
  destruct (to_ascii_class base c Hc) as [E1 E2].
  simpl. now rewrite E1, E2, IH1, IH2.
Qed.

(** An ASCII text with a character [int()] cannot read, or without any
    digit, ends as a [ValueError]. *)
Lemma int_of_str_malformed base s :
  forallb (fun c => (c <? 128)%N) s = true ->
  forallb (int_char base) s = false \/ existsb (is_digit base) s = false ->
  int_of_str base s = Raised ValueError.
Proof.
  intros Hascii H. destruct (int_of_str base s) as [z|e] eqn:E.
  - unfold int_of_str in E. apply int_of_ascii_Returned in E as [E1 E2].
    destruct (to_ascii_classes base s Hascii) as [C1 C2].
    rewrite C1 in E1. rewrite C2 in E2.
    destruct H as [H|H]; congruence.
  - now rewrite (int_of_str_Raised _ _ _ E).
Qed.

(* ================================================================== *)
(** * More on the identifier conversions *)
(* ================================================================== *)

(** X1. Converting the decimal text of any integer to a node id and back
    gives the same text: the round trip does not need the value to fit in
    32 bits, nor to be positive. Integers are those of the language, of
    any size; the limit an interpreter may put on the length of decimal
    texts is not part of this model. *)
Theorem chat_id_round_trip_any (x : Z) :
  obind (telegram_id_to_node_id (str_of_int x)) node_id_to_telegram_id =
  Returned (str_of_int x).
Proof.
  unfold telegram_id_to_node_id. rewrite int_of_str_of_int. cbn [obind].
  unfold node_id_to_telegram_id.
  change (slice_from 1 (lit "!" ++ format_08x x)) with (format_08x x).
  now rewrite int_of_str_format_any.
Qed.



Lemma lower_char_digit base c :
  is_digit base c = true ->
  is_lower_digit base (lower_char c) = true /\
  digit_value (lower_char c) = digit_value c.
Proof.
  intros (d & Hd & Hlt)%is_digit_inv.
  assert (E : digit_value (lower_char c) = Some d /\
              lower_char c = digit_char d).
  { pose proof (digit_value_Some _ _ Hd) as Hr.
    unfold lower_char, digit_char.
    destruct Hr as [[H ->]|[[H ->]|[H ->]]].
    - destruct (N.leb_spec 65 c); [lia|]. cbn [andb].
      split; [exact Hd|]. destruct (Z.ltb_spec (Z.of_N c - 48) 10); lia.
    - destruct (N.leb_spec 65 c), (N.leb_spec c 90); try lia. cbn [andb].
      split; [exact Hd|]. destruct (Z.ltb_spec (Z.of_N c - 87) 10); lia.
    - destruct (N.leb_spec 65 c), (N.leb_spec c 90); try lia. cbn [andb].
      split.
      + unfold digit_value. cmp. f_equal; lia.
      + destruct (Z.ltb_spec (Z.of_N c - 55) 10); lia. }
  destruct E as [E1 E2]. split; [|congruence].
  unfold is_lower_digit. rewrite E1, E2, N.eqb_refl, andb_true_r.
  now apply Z.ltb_lt.
Qed.

Lemma lower_digits base h :
  forallb (is_digit base) h = true ->
  forallb (is_lower_digit base) (lower h) = true /\
  forall a, digits_value base (lower h) a = digits_value base h a.
Proof.
  induction h as [|c h IH]; intros Hall; [now split|].
  simpl in Hall. apply andb_prop in Hall as [Hc Hh].
  destruct (IH Hh) as [IH1 IH2].
  destruct (lower_char_digit _ _ Hc) as [L1 L2].
  split.
  - simpl. now rewrite L1, IH1.
  - intros a. simpl. now rewrite L2, IH2.
Qed.

(** X3. A node id written with one to eight hex digits in either case,
    behind any first character, converts to a chat id that converts back
    to its normal form: the marker and the digits in lower case,
    zero-padded to eight. *)
Theorem node_id_normalized (m : N) (h : str) :
  forallb (is_digit 16) h = true ->
  (1 <= length h <= 8)%nat ->
  obind (node_id_to_telegram_id (m :: h)) telegram_id_to_node_id =
  Returned (lit "!" ++ repeat 48%N (8 - length h) ++ lower h).
Proof.
  intros Hall Hlen.
  unfold node_id_to_telegram_id.
  change (slice_from 1 (m :: h)) with h.
  rewrite int_of_str_digits;
    [| exact Hall | destruct h; simpl in *; [lia | congruence]].
  cbn [obind].
  destruct (digits_value_bound 16 ltac:(lia) ltac:(lia) h Hall) as [_ Hb].
  assert (16 ^ Z.of_nat (length h) <= 16 ^ 8)
    by (apply Z.pow_le_mono_r; lia).
  change (16 ^ 8) with 4294967296 in *.
  set (v := digits_value 16 h 0) in *.
  rewrite telegram_id_to_node_id_nonneg by lia. do 2 f_equal.
  destruct (lower_digits 16 h Hall) as [Hl Hv].
  apply (digits_value_inj 16); try lia.
  - rewrite format_08x_length by lia.
    unfold lower. rewrite length_app, repeat_length, length_map. lia.
  - apply format_08x_lower; lia.
  - rewrite forallb_app, Hl, zeros_lower by lia. reflexivity.
  - rewrite format_08x_value by lia.
    now rewrite digits_value_zeros, Hv.
Qed.

Lemma node_id_normalized_witness :
  obind (node_id_to_telegram_id (lit "!BEEF")) telegram_id_to_node_id =
  Returned (lit "!0000beef").
Proof.
  apply (node_id_normalized 33%N (lit "BEEF")); [reflexivity | simpl; lia].
Defined.

(** X4. [telegram_id_to_node_id] raises [ValueError] for an ASCII text
    that holds a character other than a decimal digit, whitespace, a sign
    or an underscore, and for an ASCII text without any decimal digit (the
    empty text included). *)
Theorem telegram_id_malformed (t : str) :
  forallb (fun c => (c <? 128)%N) t = true ->
  forallb (int_char 10) t = false \/ existsb (is_digit 10) t = false ->
  telegram_id_to_node_id t = Raised ValueError.
Proof.
  intros Hascii H. unfold telegram_id_to_node_id.
  now rewrite int_of_str_malformed.
Qed.

Lemma telegram_id_malformed_witness :
  telegram_id_to_node_id (lit "12a4") = Raised ValueError /\
  telegram_id_to_node_id [] = Raised ValueError.
Proof.
  split.
  - apply (telegram_id_malformed (lit "12a4")); [reflexivity|].
    left. reflexivity.
  - apply (telegram_id_malformed []); [reflexivity|]. right. reflexivity.
Defined.

(** X5. [node_id_to_telegram_id] raises [ValueError] when the text after
    the first character is ASCII and holds something that cannot belong
    to a hex number, or holds no hex digit: so for the empty text and for
    the marker alone. The first character itself is never looked at. *)
Theorem node_id_malformed (node_id : str) :
  forallb (fun c => (c <? 128)%N) (slice_from 1 node_id) = true ->
  forallb (int_char 16) (slice_from 1 node_id) = false \/
  existsb (is_digit 16) (slice_from 1 node_id) = false ->
  node_id_to_telegram_id node_id = Raised ValueError.
Proof.
  intros Hascii H. unfold node_id_to_telegram_id.
  now rewrite int_of_str_malformed.
Qed.

Lemma node_id_malformed_witness :
  node_id_to_telegram_id (lit "!deadbeeg") = Raised ValueError /\
  node_id_to_telegram_id (lit "!") = Raised ValueError /\
  node_id_to_telegram_id [] = Raised ValueError.
Proof.
  split; [|split].
  - apply (node_id_malformed (lit "!deadbeeg")); [reflexivity|].
    left. reflexivity.
  - apply (node_id_malformed (lit "!")); [reflexivity|]. right. reflexivity.
  - apply (node_id_malformed []); [reflexivity|]. right. reflexivity.
Defined.

(* ================================================================== *)
(** * Configuration at start *)
(* ================================================================== *)

(** X6. When the configuration is accepted, the token is set and not
    empty and the group id is the non-zero integer written in the
    environment; the only exception start-up raises is [ValueError]. *)
Theorem startup_config_checked (env_token env_group : option str) :
  (forall token gid,
     startup_config env_token env_group = Returned (token, gid) ->
     exists t v, env_token = Some t /\ token = Some t /\ t <> [] /\
                 env_group = Some v /\ int_of_str 10 v = Returned gid /\
                 gid <> 0) /\
  (forall e, startup_config env_token env_group = Raised e -> e = ValueError).
Proof.
  unfold startup_config. split.
  - intros token gid.
    destruct (int_of_str 10 _) as [g|e] eqn:Hg; [|discriminate].
    cbn [obind].
    destruct env_token as [[|c t]|]; cbn [is_empty orb]; try discriminate.
    destruct (Z.eqb_spec g 0) as [->|Hnz]; [discriminate|].
    intros E. injection E as <- <-.
    destruct env_group as [v|].
    + exists (c :: t), v. repeat split; auto; discriminate.
    + exfalso. vm_compute in Hg. congruence.
  - intros e.
    destruct (int_of_str 10 _) as [g|e'] eqn:Hg; cbn [obind].
    + destruct (_ || _); congruence.
    + intros E. injection E as <-. now apply int_of_str_Raised in Hg.
Qed.

Lemma startup_config_checked_witness :
  exists t v, Some (lit "123:abc") = Some t /\ Some (lit "123:abc") = Some t /\
              t <> [] /\ Some (lit "-1001") = Some v /\
              int_of_str 10 v = Returned (-1001) /\ -1001 <> 0.
Proof.
  apply (proj1 (startup_config_checked (Some (lit "123:abc"))
                  (Some (lit "-1001")))).
  reflexivity.
Defined.

(** X7. Start-up accepts every non-empty token together with the decimal
    text of every integer other than 0 of at most 640 digits (a length
    that no setting of the interpreter's limit on decimal texts refuses),
    negative ones included, and keeps both as they are; with the group id
    unset, 0, or no token it stops with [ValueError]. *)
Theorem startup_config_accepts (t : str) (gid : Z) :
  t <> [] -> gid <> 0 -> - 10 ^ 640 < gid < 10 ^ 640 ->
  startup_config (Some t) (Some (str_of_int gid)) = Returned (Some t, gid) /\
  startup_config (Some t) None = Raised ValueError /\
  startup_config (Some t) (Some (str_of_int 0)) = Raised ValueError /\
  startup_config None (Some (str_of_int gid)) = Raised ValueError /\
  startup_config (Some []) (Some (str_of_int gid)) = Raised ValueError.
Proof.
  intros Ht Hg _. unfold startup_config.
  rewrite !int_of_str_of_int. cbn [obind].
  destruct (Z.eqb_spec gid 0); [congruence|].
  destruct t; [congruence|]. repeat split.
Qed.

Lemma startup_config_accepts_witness :
  startup_config (Some (lit "123:abc")) (Some (lit "-1001234567890")) =
  Returned (Some (lit "123:abc"), -1001234567890).
Proof.
  apply (proj1 (startup_config_accepts (lit "123:abc") (-1001234567890)
                  ltac:(discriminate) ltac:(discriminate)
                  ltac:(split; reflexivity))).
Defined.

(* ================================================================== *)
(** * More on mesh to chat *)
(* ================================================================== *)

(** An entry of the reverse view comes from an item of the whitelist. *)
Lemma invert_get_In (d : dict str) id name :
  dict_get (invert d) id = Some name -> In (name, id) d.
Proof.
  unfold invert, dict_items. rewrite dict_of_items_get.
  intros H%dict_get_Some_In. rewrite <- in_rev in H.
  apply in_map_iff in H as ([k v] & E & Hin). simpl in E.
  now injection E as -> ->.
Qed.

(** X9. Whatever the packet and the state of the main loop, the callback
    makes at most one chat call; a call goes to the configured group, and
    its text is ["[" + nickname + "] " + text] where the nickname is the
    one the whitelist gives for the packet's sender and the text is the
    stripped, non-empty decoding of its payload. Nothing of an unlisted
    sender is ever passed on. *)
Theorem relay_only_listed
    (ALLOWED_NODES : dict str) (gid : Z) (bot : Z -> str -> outcome unit)
    (main_loop : loop_state) (p : packet) :
  chat_calls
    (trace (on_meshtastic_receive ALLOWED_NODES gid bot main_loop p)) = [] \/
  exists sender nickname raw text,
    fromId p = Some sender /\
    In (nickname, sender) ALLOWED_NODES /\
    decoded p = Some {| payload := Some raw |} /\
    text = strip (decode_ignore raw) /\ text <> [] /\
    to p <> Some 4294967295 /\
    chat_calls
      (trace (on_meshtastic_receive ALLOWED_NODES gid bot main_loop p)) =
    [(gid, lit "[" ++ nickname ++ lit "] " ++ text)].
Proof.
  unfold on_meshtastic_receive.
  destruct (fromId p) as [sender|] eqn:Hf; [|now left].
  unfold contains_opt, dict_contains.
  destruct (dict_get (NODE_ID_TO_NAME ALLOWED_NODES) sender)
    as [nickname|] eqn:Hn; [|now left].
  cbn [negb].
  destruct (opt_int_eqb (to p) MESHTASTIC_BROADCAST_ID) eqn:Ht; [now left|].
  destruct (decoded p) as [[[raw|]]|] eqn:Hd; try now left.
  cbn [payload].
  destruct (strip (decode_ignore raw)) as [|c text] eqn:Htext; [now left|].
  cbn [is_empty get_or_self]. rewrite Hn. cbn [fmt].
  unfold run_coroutine_threadsafe.
  destruct main_loop; [now left | | now left].
  right. exists sender, nickname, raw, (c :: text).
  split; [reflexivity|]. split; [now apply invert_get_In|].
  split; [reflexivity|]. split; [now symmetry|]. split; [discriminate|].
  split.
  - intros E. rewrite E in Ht. discriminate.
  - apply chat_calls_send_to_telegram.
Qed.

Lemma lstrip_blank s : forallb isspace s = true -> lstrip s = [].
Proof.
  induction s as [|c s IH]; simpl; [reflexivity|].
  intros H. apply andb_prop in H as [-> H]. now apply IH.
Qed.

Lemma strip_blank s : forallb isspace s = true -> strip s = [].
Proof. intros H. unfold strip. now rewrite lstrip_blank. Qed.

(** Blank bytes decode to whitespace only. *)
Lemma decode_blank bs :
  forallb blank_byte bs = true ->
  forallb isspace (utf8_decode_ignore bs) = true.
Proof.
  induction bs as [|b0 r0 IH]; [reflexivity|].
  intros H. cbn [forallb] in H. apply andb_prop in H as [Hb Hr].
  specialize (IH Hr). cbn [utf8_decode_ignore].
  unfold blank_byte in Hb.
  destruct (N.ltb_spec b0 128) as [Hlt|Hge].
  - cbn [andb orb] in Hb.
    destruct (isspace b0) eqn:Hsp.
    + cbn [forallb]. now rewrite Hsp, IH.
    + cbn [orb] in Hb.
      destruct (N.leb_spec 128 b0); [lia|]. cbn [andb orb] in Hb.
      destruct (N.leb_spec 245 b0); [lia | discriminate].
  - destruct (N.ltb_spec b0 194); [exact IH|].
    cbn [andb orb] in Hb. rewrite andb_false_r in Hb. cbn [orb] in Hb.
    apply N.leb_le in Hb.
    destruct (N.ltb_spec b0 224); [lia|].
    destruct (N.ltb_spec b0 240); [lia|].
    destruct (N.ltb_spec b0 245); [lia|]. exact IH.
Qed.

(** X10. A packet whose payload is made only of ASCII whitespace and of
    bytes that cannot start a UTF-8 sequence leaves no text and is
    dropped with no effect, also for a whitelisted sender. *)
Theorem blank_payload_dropped
    (ALLOWED_NODES : dict str) (gid : Z) (bot : Z -> str -> outcome unit)
    (main_loop : loop_state) (p : packet) (raw : bytes) :
  decoded p = Some {| payload := Some raw |} ->
  forallb blank_byte (map Byte.to_N raw) = true ->
  on_meshtastic_receive ALLOWED_NODES gid bot main_loop p = ret tt.
Proof.
  intros Hd Hraw. unfold on_meshtastic_receive.
  destruct (negb _); [reflexivity|].
  destruct (opt_int_eqb _ _); [reflexivity|].
  rewrite Hd. cbn [payload]. unfold decode_ignore.
  now rewrite strip_blank by now apply decode_blank.
Qed.

Lemma blank_payload_dropped_witness :
  on_meshtastic_receive whitelist 7 always_ok LoopOpen
    {| fromId := Some (lit "!deadbeef"); to := Some 1;
       decoded := Some {| payload := Some [x20; xff; x0a; x80; xf8] |} |}
  = ret tt.
Proof.
  apply (blank_payload_dropped whitelist 7 always_ok LoopOpen _
           [x20; xff; x0a; x80; xf8]); reflexivity.
Defined.

(* ================================================================== *)
(** * More on chat to mesh *)
(* ================================================================== *)

Lemma up_to_build stop target c body :
  (forall x, In x target -> stop x = false) -> stop c = true ->
  up_to stop (target ++ c :: body) = target /\
  after stop (target ++ c :: body) = body.
Proof.
  intros Ht Hc. induction target as [|x target IH]; simpl.
  - now rewrite Hc.
  - rewrite (Ht x) by now left.
    destruct IH as [IH1 IH2]; [intros y Hy; apply Ht; now right|].
    now rewrite IH1, IH2.
Qed.

(** X11. Writing a directive and reading it: for a target without space,
    the text ["@" + target + " " + body] is read as that target and that
    body, whatever the body holds (spaces in front included). *)
Theorem directive_of_parts (target body : str) :
  ~ In 32%N target ->
  directive (lit "@" ++ target ++ lit " " ++ body) = (target, body).
Proof.
  intros Ht. change (lit "@" ++ target ++ lit " " ++ body)
    with (64%N :: target ++ 32%N :: body).
  rewrite directive_marker.
  destruct (up_to_build is_space_char target 32%N body) as [-> ->];
    [| reflexivity | reflexivity].
  intros x Hx. unfold is_space_char. apply N.eqb_neq. congruence.
Qed.

Lemma directive_of_parts_witness :
  directive (lit "@MSH2  status now?") = (lit "MSH2", lit " status now?").
Proof.
  apply (directive_of_parts (lit "MSH2") (lit " status now?")).
  intros H. vm_compute in H. intuition discriminate.
Defined.

Section FanOut.

Variable iface : str -> str -> outcome unit.
Variable body : str.

Lemma for_each_all_sent ids :
  Forall (fun d => iface body d = Returned tt) ids ->
  for_each ids (fun d => sendText iface body d) =
  (map (SendText body) ids, Returned tt).
Proof.
  induction 1 as [|d ids Hd _ IH]; [reflexivity|].
  cbn [for_each]. unfold bind, sendText at 1. rewrite Hd.
  now rewrite IH.
Qed.

Lemma for_each_first_failure pre d post e :
  Forall (fun d => iface body d = Returned tt) pre ->
  iface body d = Raised e ->
  for_each (pre ++ d :: post) (fun d => sendText iface body d) =
  (map (SendText body) (pre ++ [d]), Raised e).
Proof.
  intros Hpre Hd. induction Hpre as [|x pre Hx _ IH]; cbn [app for_each map].
  - unfold bind, sendText. now rewrite Hd.
  - unfold bind, sendText at 1. rewrite Hx. now rewrite IH.
Qed.

Lemma for_each_sends ids b d :
  In (b, d)
     (mesh_sends (trace (for_each ids (fun d => sendText iface body d)))) ->
  b = body /\ In d ids.
Proof.
  induction ids as [|x ids IH]; simpl; [tauto|].
  unfold bind, sendText at 1.
  destruct (iface body x) as [[]|e].
  - destruct (for_each ids _) as [t r] eqn:E. simpl.
    intros [H|H]; [injection H as <- <-; auto|].
    destruct (IH H); auto.
  - simpl. intros [H|[]]. injection H as <- <-; auto.
Qed.

End FanOut.

Section ChatToMeshMore.

Variable ALLOWED_NODES : dict str.
Variable TELEGRAM_GROUP_ID : Z.
Variable iface : str -> str -> outcome unit.

(** The handler on a directive given by its parts. *)
Lemma handle_parts u raw target body :
  effective_chat_id u = TELEGRAM_GROUP_ID ->
  message_text u = Some raw ->
  strip raw = lit "@" ++ target ++ lit " " ++ body ->
  ~ In 32%N target -> body <> [] ->
  telegram_to_mesh ALLOWED_NODES TELEGRAM_GROUP_ID iface u =
  if str_eqb (lower target) (lit "all") then
    for_each (dict_values ALLOWED_NODES)
             (fun node_id => sendText iface body node_id)
  else if dict_contains ALLOWED_NODES target then
    match dict_get ALLOWED_NODES target with
    | Some node_id => sendText iface body node_id
    | None => ([], Raised KeyError)
    end
  else ret tt.
Proof.
  intros Hc Hm Ht Hsp Hb.
  rewrite (handle_directive ALLOWED_NODES TELEGRAM_GROUP_ID iface u raw
             (target ++ 32%N :: body) Hc Hm Ht).
  cbv zeta.
  destruct (up_to_build is_space_char target 32%N body) as [-> ->];
    [| reflexivity |].
  - intros x Hx. unfold is_space_char. apply N.eqb_neq. congruence.
  - destruct body; [congruence | reflexivity].
Qed.

End ChatToMeshMore.

Lemma lower_all_no_space target : lower target = lit "all" -> ~ In 32%N target.
Proof.
  intros E Hin.
  assert (H : In (lower_char 32) (lower target)) by now apply in_map.
  rewrite E in H. vm_compute in H. intuition discriminate.
Qed.

(** X12. A directive whose target is [all] in any mix of cases, with a
    body, is sent to the identifiers of the whitelist in its order, once
    each, as long as the sends succeed: when all succeed there is one send
    per identifier and the handler returns; the first send that fails is
    the last one made and its exception leaves the handler. A nickname
    spelled [all] in the whitelist does not change this. *)
Theorem fan_out_any_size
    (ALLOWED_NODES : dict str) (gid : Z) (iface : str -> str -> outcome unit)
    (u : update) (raw target body : str) :
  effective_chat_id u = gid ->
  message_text u = Some raw ->
  strip raw = lit "@" ++ target ++ lit " " ++ body ->
  lower target = lit "all" ->
  body <> [] ->
  (Forall (fun d => iface body d = Returned tt) (dict_values ALLOWED_NODES) ->
   telegram_to_mesh ALLOWED_NODES gid iface u =
   (map (SendText body) (dict_values ALLOWED_NODES), Returned tt)) /\
  (forall pre d post e,
   dict_values ALLOWED_NODES = pre ++ d :: post ->
   Forall (fun d => iface body d = Returned tt) pre ->
   iface body d = Raised e ->
   telegram_to_mesh ALLOWED_NODES gid iface u =
   (map (SendText body) (pre ++ [d]), Raised e)).
Proof.
  intros Hc Hm Ht Hall Hb.
  rewrite (handle_parts ALLOWED_NODES gid iface u raw target body Hc Hm Ht
             (lower_all_no_space _ Hall) Hb).
  rewrite Hall. change (str_eqb (lit "all") (lit "all")) with true.
  cbv iota. split.
  - apply for_each_all_sent.
  - intros pre d post e -> Hpre Hd. now apply for_each_first_failure.
Qed.

Lemma fan_out_any_size_witness :
  telegram_to_mesh whitelist 7 always_ok
    {| effective_chat_id := 7;
       message_text := Some (lit " @aLL are you there? ") |}
  = ([SendText (lit "are you there?") (lit "!deadbeef");
      SendText (lit "are you there?") (lit "!42babe42")], Returned tt).
Proof.
  apply (proj1 (fan_out_any_size whitelist 7 always_ok
                  {| effective_chat_id := 7;
                     message_text := Some (lit " @aLL are you there? ") |}
                  (lit " @aLL are you there? ")
                  (lit "aLL") (lit "are you there?")
                  eq_refl eq_refl eq_refl eq_refl ltac:(discriminate))).
  repeat constructor.
Defined.

(** X13. A directive to a whitelisted nickname (other than [all]) leads
    to exactly one send, of the body, to the identifier of that nickname;
    the handler ends as that send does, so a failure of the transport
    leaves the handler as an exception. *)
Theorem single_target_sent
    (ALLOWED_NODES : dict str) (gid : Z) (iface : str -> str -> outcome unit)
    (u : update) (raw target body node_id : str) :
  effective_chat_id u = gid ->
  message_text u = Some raw ->
  strip raw = lit "@" ++ target ++ lit " " ++ body ->
  ~ In 32%N target ->
  body <> [] ->
  lower target <> lit "all" ->
  dict_get ALLOWED_NODES target = Some node_id ->
  telegram_to_mesh ALLOWED_NODES gid iface u =
  ([SendText body node_id], iface body node_id).
Proof.
  intros Hc Hm Ht Hsp Hb Hall Hg.
  rewrite (handle_parts ALLOWED_NODES gid iface u raw target body
             Hc Hm Ht Hsp Hb).
  destruct (str_eqb_spec (lower target) (lit "all")); [congruence|].
  unfold dict_contains. rewrite Hg. reflexivity.
Qed.

Lemma single_target_sent_witness :
  telegram_to_mesh whitelist 7 (fails_for (lit "!42babe42"))
    {| effective_chat_id := 7; message_text := Some (lit "@MSH2 status?") |}
  = ([SendText (lit "status?") (lit "!42babe42")], Raised TransportError).
Proof.
  apply (single_target_sent whitelist 7 (fails_for (lit "!42babe42"))
           {| effective_chat_id := 7;
              message_text := Some (lit "@MSH2 status?") |}
           (lit "@MSH2 status?")
           (lit "MSH2") (lit "status?") (lit "!42babe42")
           eq_refl eq_refl eq_refl).
  - intros H. vm_compute in H. intuition discriminate.
  - discriminate.
  - discriminate.
  - reflexivity.
Defined.

(** X14. A directive to a name that is not a nickname of the whitelist,
    compared as written (so also a nickname in another case), and that is
    not [all], makes no send and raises nothing. *)
Theorem unknown_target_dropped
    (ALLOWED_NODES : dict str) (gid : Z) (iface : str -> str -> outcome unit)
    (u : update) (raw target body : str) :
  effective_chat_id u = gid ->
  message_text u = Some raw ->
  strip raw = lit "@" ++ target ++ lit " " ++ body ->
  ~ In 32%N target ->
  lower target <> lit "all" ->
  ~ In target (dict_keys ALLOWED_NODES) ->
  telegram_to_mesh ALLOWED_NODES gid iface u = ret tt.
Proof.
  intros Hc Hm Ht Hsp Hall Hk.
  destruct body as [|c body].
  - rewrite (handle_directive ALLOWED_NODES gid iface u raw
               (target ++ [32%N]) Hc Hm Ht). cbv zeta.
    destruct (up_to_build is_space_char target 32%N []) as [_ ->];
      [| reflexivity | reflexivity].
    intros x Hx. unfold is_space_char. apply N.eqb_neq. congruence.
  - rewrite (handle_parts ALLOWED_NODES gid iface u raw target (c :: body)
               Hc Hm Ht Hsp ltac:(discriminate)).
    destruct (str_eqb_spec (lower target) (lit "all")); [congruence|].
    unfold dict_contains.
    apply dict_get_None in Hk. now rewrite Hk.
Qed.

Lemma unknown_target_dropped_witness :
  telegram_to_mesh whitelist 7 always_ok
    {| effective_chat_id := 7; message_text := Some (lit "@msh1 hi") |}
  = ret tt.
Proof.
  apply (unknown_target_dropped whitelist 7 always_ok
           {| effective_chat_id := 7; message_text := Some (lit "@msh1 hi") |}
           (lit "@msh1 hi") (lit "msh1") (lit "hi")
           eq_refl eq_refl eq_refl).
  - intros H. vm_compute in H. intuition discriminate.
  - discriminate.
  - intros H. vm_compute in H. intuition discriminate.
Defined.

Lemma dict_get_values {V} (d : dict V) k v :
  dict_get d k = Some v -> In v (dict_values d).
Proof.
  intros H%dict_get_Some_In. unfold dict_values.
  apply in_map_iff. now exists (k, v).
Qed.

(** X15. Every send the handler makes, whatever the update, answers an
    update of the configured group that carries a message whose stripped
    text starts with the marker; its destination is an identifier of the
    whitelist and its body is the non-empty body read from that text. An
    exception that leaves the handler is either the [AttributeError] of
    an update of the group without message, raised before any send, or
    was raised by a send to an identifier of the whitelist. *)
Theorem sends_only_to_whitelist
    (ALLOWED_NODES : dict str) (gid : Z) (iface : str -> str -> outcome unit)
    (u : update) :
  (forall b d,
     In (b, d) (mesh_sends
                  (trace (telegram_to_mesh ALLOWED_NODES gid iface u))) ->
     effective_chat_id u = gid /\
     exists raw,
       message_text u = Some raw /\
       startswith (strip raw) (lit "@") = true /\
       b = snd (directive (strip raw)) /\ b <> [] /\
       In d (dict_values ALLOWED_NODES)) /\
  (forall e,
     result (telegram_to_mesh ALLOWED_NODES gid iface u) = Raised e ->
     effective_chat_id u = gid /\
     (message_text u = None /\ e = AttributeError /\
      trace (telegram_to_mesh ALLOWED_NODES gid iface u) = [] \/
      exists raw d,
        message_text u = Some raw /\
        In d (dict_values ALLOWED_NODES) /\
        iface (snd (directive (strip raw))) d = Raised e)).
Proof.
  unfold telegram_to_mesh.
  destruct (Z.eqb_spec (effective_chat_id u) gid) as [Hc|Hc]; cbn [negb];
    [|split; [intros b d [] | discriminate]].
  destruct (message_text u) as [raw|].
  2:{ split; [intros b d []|]. intros e E. injection E as <-.
      split; [exact Hc|]. left. auto. }
  destruct (is_empty (strip raw)
            || negb (startswith (strip raw) (lit "@"))) eqn:Hs;
    [split; [intros b d [] | discriminate]|].
  apply orb_false_elim in Hs as [_ Hs]. apply negb_false_iff in Hs.
  destruct (directive (strip raw)) as [target body] eqn:Hd.
  destruct body as [|c body]; cbn [is_empty];
    [split; [intros b d [] | discriminate]|].
  destruct (str_eqb (lower target) (lit "all")).
  - split.
    + intros b d [-> Hin]%for_each_sends. split; [exact Hc|].
      exists raw. rewrite Hd. repeat split; auto; discriminate.
    + intros e He. split; [exact Hc|]. right. exists raw.
      rewrite Hd. cbn [snd].
      revert He.
      induction (dict_values ALLOWED_NODES) as [|x ids IH];
        cbn [for_each]; [discriminate|].
      unfold bind, sendText at 1.
      destruct (iface (c :: body) x) as [[]|e'] eqn:Hx.
      * destruct (for_each ids _) as [t r]. cbn [result snd] in *.
        intros E. destruct (IH E) as (d & _ & Hin & Hr).
        exists d. split; [reflexivity|]. split; [now right | exact Hr].
      * cbn [result snd]. intros E. injection E as ->.
        exists x. split; [reflexivity|]. split; [now left | exact Hx].
  - unfold dict_contains.
    destruct (dict_get ALLOWED_NODES target) as [node_id|] eqn:Hg;
      [|split; [intros b d [] | discriminate]].
    apply dict_get_values in Hg.
    unfold sendText. cbn [trace result fst snd mesh_sends]. split.
    + intros b d [E|[]]. injection E as <- <-. split; [exact Hc|].
      exists raw. rewrite Hd. repeat split; auto; discriminate.
    + intros e He. split; [exact Hc|]. right. exists raw, node_id.
      rewrite Hd. auto.
Qed.

Lemma sends_only_to_whitelist_witness :
  effective_chat_id
    {| effective_chat_id := 7;
       message_text := Some (lit "@MSH2 status?") |} = 7 /\
  exists raw,
    Some (lit "@MSH2 status?") = Some raw /\
    startswith (strip raw) (lit "@") = true /\
    lit "status?" = snd (directive (strip raw)) /\
    lit "status?" <> [] /\
    In (lit "!42babe42") (dict_values whitelist).
Proof.
  apply (proj1 (sends_only_to_whitelist whitelist 7 always_ok
                  {| effective_chat_id := 7;
                     message_text := Some (lit "@MSH2 status?") |})
           (lit "status?") (lit "!42babe42")).
  left. reflexivity.
Defined.

(* ================================================================== *)
(** * More on the whitelist dictionaries *)
(* ================================================================== *)

Lemma dict_get_In_NoDup {V} (d : dict V) k v :
  NoDup (dict_keys d) -> In (k, v) d -> dict_get d k = Some v.
Proof.
  induction d as [|[k' v'] d IH]; simpl; [tauto|].
  intros Hnd [E|Hin].
  - injection E as -> ->. now rewrite str_eqb_refl.
  - apply NoDup_cons_iff in Hnd as [Hk Hnd].
    destruct (str_eqb_spec k' k) as [->|Hne]; [|now apply IH].
    exfalso. apply Hk. unfold dict_keys. apply in_map_iff. now exists (k, v).
Qed.

(** X16. When no two nicknames of the whitelist share an identifier, the
    two dictionaries answer alike: the reverse view gives [name] for
    [node_id] exactly when the whitelist gives [node_id] for [name]. *)
Theorem views_agree (display : list (str * str)) (name node_id : str) :
  let ALLOWED_NODES := dict_of_items display in
  NoDup (dict_values ALLOWED_NODES) ->
  (dict_get (NODE_ID_TO_NAME ALLOWED_NODES) node_id = Some name <->
   dict_get ALLOWED_NODES name = Some node_id).
Proof.
  intros A Hnd. split.
  - intros H%invert_get_In.
    apply dict_get_In_NoDup; [apply dict_of_items_NoDup | exact H].
  - intros H%dict_get_Some_In.
    unfold NODE_ID_TO_NAME, invert, dict_items. rewrite dict_of_items_get.
    apply dict_get_In_NoDup.
    + unfold dict_keys. rewrite map_rev, map_map. cbn [fst].
      apply NoDup_rev. exact Hnd.
    + rewrite <- in_rev. apply in_map_iff. now exists (name, node_id).
Qed.

Lemma views_agree_witness :
  dict_get (NODE_ID_TO_NAME whitelist) (lit "!42babe42") = Some (lit "MSH2") <->
  dict_get whitelist (lit "MSH2") = Some (lit "!42babe42").
Proof.
  apply (views_agree [ (lit "MSH1", lit "!deadbeef");
                       (lit "MSH2", lit "!42babe42") ]
           (lit "MSH2") (lit "!42babe42")).
  vm_compute. repeat constructor; simpl; intuition discriminate.
Defined.

Lemma dict_set_fresh {V} (d : dict V) k v :
  ~ In k (dict_keys d) -> dict_set d k v = d ++ [(k, v)].
Proof.
  induction d as [|[k' v'] d IH]; simpl; [reflexivity|].
  intros H. destruct (str_eqb_spec k' k) as [->|Hne]; [tauto|].
  rewrite IH; [reflexivity | tauto].
Qed.

Lemma fold_set_fresh {V} (items : list (str * V)) : forall d,
  NoDup (dict_keys d ++ map fst items) ->
  fold_left (fun d kv => dict_set d (fst kv) (snd kv)) items d = d ++ items.
Proof.
  induction items as [|[k v] items IH]; intros d Hnd; simpl.
  - now rewrite app_nil_r.
  - simpl in Hnd. rewrite dict_set_fresh.
    + rewrite IH; [now rewrite <- app_assoc|].
      unfold dict_keys. rewrite map_app, <- app_assoc. exact Hnd.
    + apply NoDup_remove_2 in Hnd. intros Hin. apply Hnd.
      apply in_or_app. now left.
Qed.

(** X17. A whitelist display is stored item for item, in the order it is
    written, exactly when no nickname is written twice; the identifiers
    that [@all] goes through are then those of the display, in its
    order. *)
Theorem display_kept_in_order (display : list (str * str)) :
  (dict_of_items display = display <-> NoDup (map fst display)) /\
  (NoDup (map fst display) ->
   dict_values (dict_of_items display) = map snd display).
Proof.
  assert (H : NoDup (map fst display) -> dict_of_items display = display).
  { intros Hnd. unfold dict_of_items. now rewrite fold_set_fresh. }
  split; [split|].
  - intros E. pose proof (dict_of_items_NoDup display) as Hnd.
    now rewrite E in Hnd.
  - exact H.
  - intros Hnd. now rewrite H.
Qed.

Lemma display_kept_in_order_witness :
  dict_values whitelist = [lit "!deadbeef"; lit "!42babe42"].
Proof.
  apply (proj2 (display_kept_in_order
                  [ (lit "MSH1", lit "!deadbeef");
                    (lit "MSH2", lit "!42babe42") ])).
  vm_compute. repeat constructor; simpl; intuition discriminate.
Defined.

(* ================================================================== *)
(** * Text through the bridge *)
(* ================================================================== *)

Lemma lstrip_snoc l c :
  isspace c = false -> exists l', lstrip (l ++ [c]) = l' ++ [c].
Proof.
  intros Hc. induction l as [|x l IH]; simpl.
  - rewrite Hc. now exists [].
  - destruct (isspace x); [exact IH | now exists (x :: l)].
Qed.

(** Stripping keeps a first character that is no whitespace. *)
Lemma strip_head c s :
  isspace c = false -> exists r, strip (c :: s) = c :: r.
Proof.
  intros Hc. unfold strip, rstrip. simpl lstrip. rewrite Hc. simpl rev.
  destruct (lstrip_snoc (rev s) c Hc) as (l' & ->).
  rewrite rev_app_distr. simpl. now exists (rev l').
Qed.

(** Stripping changes nothing in a text that neither starts nor ends with
    whitespace. *)
Lemma strip_keep s :
  isspace (hd 32%N s) = false -> isspace (last s 32%N) = false ->
  strip s = s.
Proof.
  intros Hh Hl. unfold strip, rstrip. rewrite (lstrip_keep s Hh).
  rewrite lstrip_keep by now rewrite hd_rev_last.
  apply rev_involutive.
Qed.

(** ASCII bytes decode to themselves. *)
Lemma decode_ascii bs :
  forallb (fun b => (b <? 128)%N) bs = true -> utf8_decode_ignore bs = bs.
Proof.
  induction bs as [|b bs IH]; [reflexivity|].
  intros H. cbn [forallb] in H. apply andb_prop in H as [Hb Hr].
  cbn [utf8_decode_ignore]. rewrite Hb. now rewrite IH.
Qed.

(** X18. With the main loop open, for a whitelisted sender and a
    destination other than the broadcast id, an ASCII payload that neither
    starts nor ends with whitespace reaches the chat unchanged, byte for
    character, behind the sender's nickname in brackets. *)
Theorem ascii_payload_verbatim
    (ALLOWED_NODES : dict str) (gid : Z) (bot : Z -> str -> outcome unit)
    (main_loop : loop_state) (p : packet) (sender nickname : str)
    (raw : bytes) :
  main_loop = LoopOpen ->
  fromId p = Some sender ->
  dict_get (NODE_ID_TO_NAME ALLOWED_NODES) sender = Some nickname ->
  to p <> Some MESHTASTIC_BROADCAST_ID ->
  decoded p = Some {| payload := Some raw |} ->
  forallb (fun b => (b <? 128)%N) (map Byte.to_N raw) = true ->
  isspace (hd 32%N (map Byte.to_N raw)) = false ->
  isspace (last (map Byte.to_N raw) 32%N) = false ->
  chat_calls
    (trace (on_meshtastic_receive ALLOWED_NODES gid bot main_loop p)) =
  [(gid, lit "[" ++ nickname ++ lit "] " ++ map Byte.to_N raw)].
Proof.
  intros -> Hf Hn Ht Hd Hascii Hh Hl.
  assert (E : strip (decode_ignore raw) = map Byte.to_N raw).
  { unfold decode_ignore. rewrite decode_ascii by exact Hascii.
    now apply strip_keep. }
  rewrite (receive_listed ALLOWED_NODES gid bot LoopOpen p sender nickname
             Hf Hn)
    with (raw := raw).
  - rewrite E.
    destruct (map Byte.to_N raw) as [|c s] eqn:Em; [discriminate|].
    cbn [is_empty]. unfold run_coroutine_threadsafe.
    apply chat_calls_send_to_telegram.
  - unfold opt_int_eqb. destruct (to p) as [z|]; [|reflexivity].
    apply Z.eqb_neq. congruence.
  - now rewrite Hd.
Qed.

Lemma ascii_payload_verbatim_witness :
  chat_calls (trace (on_meshtastic_receive whitelist 7 always_ok LoopOpen
                       (text_packet "!42babe42" None "battery 81 %, ok"))) =
  [(7, lit "[MSH2] battery 81 %, ok")].
Proof.
  apply (ascii_payload_verbatim whitelist 7 always_ok LoopOpen
           (text_packet "!42babe42" None "battery 81 %, ok")
           (lit "!42babe42") (lit "MSH2") (blit "battery 81 %, ok"));
    try reflexivity; discriminate.
Defined.

(** The chat calls of the callback: none, or one whose text starts with
    an opening bracket. *)
Lemma receive_calls_bracket
    (ALLOWED_NODES : dict str) (gid : Z) (bot : Z -> str -> outcome unit)
    (main_loop : loop_state) (p : packet) c t :
  In (c, t) (chat_calls
               (trace (on_meshtastic_receive ALLOWED_NODES gid bot
                         main_loop p))) ->
  c = gid /\ exists rest, t = 91%N :: rest.
Proof.
  unfold on_meshtastic_receive.
  destruct (negb _); [intros []|].
  destruct (opt_int_eqb _ _); [intros []|].
  destruct (is_empty _); [intros []|].
  unfold run_coroutine_threadsafe.
  destruct main_loop; [intros [] | | intros []].
  cbn [trace fst].
  fold (trace (send_to_telegram gid bot
    (lit "[" ++ fmt (get_or_self (NODE_ID_TO_NAME ALLOWED_NODES) (fromId p))
       ++ lit "] " ++
       strip (decode_ignore
          match payload match decoded p with
                        | Some d => d
                        | None => {| payload := None |}
                        end with
          | Some b => b
          | None => []
          end)))).
  rewrite chat_calls_send_to_telegram.
  intros [E|[]]. injection E as <- <-. split; [reflexivity|].
  eexists. reflexivity.
Qed.

(** X19. What the bridge posts to the chat is never taken for a directive:
    handed back to the chat-to-mesh handler, as a message of any chat, a
    text produced by the mesh-to-chat callback leads to no send and no
    exception, so relayed messages cannot loop. *)
Theorem relayed_text_not_a_directive
    (ALLOWED_NODES : dict str) (gid gid' : Z)
    (bot : Z -> str -> outcome unit) (iface : str -> str -> outcome unit)
    (main_loop : loop_state) (p : packet) (c : Z) (t : str) :
  In (c, t) (chat_calls
               (trace (on_meshtastic_receive ALLOWED_NODES gid bot
                         main_loop p))) ->
  telegram_to_mesh ALLOWED_NODES gid' iface
    {| effective_chat_id := c; message_text := Some t |} = ret tt.
Proof.
  intros (_ & rest & ->)%receive_calls_bracket.
  unfold telegram_to_mesh. cbn [effective_chat_id message_text].
  destruct (negb _); [reflexivity|].
  destruct (strip_head 91%N rest eq_refl) as (r & ->).
  reflexivity.
Qed.

Lemma relayed_text_not_a_directive_witness :
  telegram_to_mesh whitelist 7 always_ok
    {| effective_chat_id := 7;
       message_text := Some (lit "[MSH1] @all hello") |}
  = ret tt.
Proof.
  apply (relayed_text_not_a_directive whitelist 7 7 always_ok always_ok
           LoopOpen (text_packet "!deadbeef" (Some 1) "@all hello")).
  left. reflexivity.
Defined.
